(** * simplevc: version registry, resolver and CLI surface

    A shallow embedding of [simplevc/simplevc.py] and the properties of
    its version resolution, dispatch proxies, registration and CLI
    grammar generation.

    Conventions of the embedding.
    - A Python [str] is a [string]: a sequence of code points below 256,
      ordered as Python orders strings (code point by code point, a proper
      prefix first), which is [String.compare].
    - A raised exception is the [Raise] branch of [result]; code that reads
      or writes the attributes of the registered module runs in the monad
      [M], which threads the module through and keeps the module as it was
      at the point where an exception was raised.
    - A Python [dict] is an insertion-ordered association list ([dict]).
    - The module attributes written by [register] are the fields of the
      record [module]; the dispatch proxies installed by [setattr(module,
      function_name, _run_method)] live in the field [attrs].  This
      describes the module as long as no base name is one of the
      [reserved_attributes]; where a statement needs that, it is a
      hypothesis of the statement or part of [registered]. *)

From Equations Require Import Equations.
From Stdlib Require Import List Arith ZArith Lia Bool Ascii String.
From Stdlib Require Import Sorted Permutation.
Import ListNotations.

Set Implicit Arguments.
Open Scope string_scope.

(** ** Python values, exceptions and results *)

(** The objects that flow through the library without being inspected:
    arguments, results, declared defaults, types used as converters. *)
Inductive value : Type :=
| VNone
| VBool (b : bool)
| VInt (z : Z)
| VStr (s : string)
| VType (name : string)
| VObj (id : nat).

Inductive exn : Type :=
| ValueError (msg : string)
| IndexError
| KeyError (key : string)
| AttributeError (attr : string)
| ArgumentError (flag : string)
| Exception_ (msg : string).

Inductive result (A : Type) : Type :=
| Ok (a : A)
| Raise (e : exn).
Arguments Ok {A} a.
Arguments Raise {A} e.

Definition rbind {A B} (r : result A) (k : A -> result B) : result B :=
  match r with
  | Ok a => k a
  | Raise e => Raise e
  end.

Notation "x <- r ;; k" := (rbind r (fun x => k))
  (at level 61, r at next level, right associativity).

(** ** Strings *)

Definition str_lt (a b : string) : Prop := String.ltb a b = true.
Definition str_le (a b : string) : Prop := String.leb a b = true.

(** [s[lo:hi]] and [s[lo:]] for non-negative bounds. *)
Definition slice (s : string) (lo hi : nat) : string :=
  String.substring lo (hi - lo) s.

Definition slice_from (s : string) (lo : nat) : string :=
  String.substring lo (String.length s - lo) s.

(** [s.rindex(c)] for a one-character [c]: the highest index at which [c]
    occurs, [ValueError] when it does not occur. *)
Fixpoint rfind (c : ascii) (s : string) : option nat :=
  match s with
  | EmptyString => None
  | String a s' =>
      match rfind c s' with
      | Some i => Some (S i)
      | None => if Ascii.eqb a c then Some 0 else None
      end
  end.

Definition rindex (s : string) (c : ascii) : result nat :=
  match rfind c s with
  | Some i => Ok i
  | None => Raise (ValueError "substring not found")
  end.

(** ** [int(s)] on a string

    Base ten: optional surrounding whitespace, an optional sign, then
    decimal digits, single underscores allowed between digits.  The
    whitespace is what the conversion skips: the six characters of the C
    locale (tab, line feed, vertical tab, form feed, carriage return,
    space) and, of the code points from 128 to 255, the two that are
    Unicode whitespace (133 and 160); the separators 28 to 31 are not
    skipped.  The limit on the number of digits is left out:
    [_compare_version] applies [int] to slices of at most four
    characters. *)

Definition is_digit (c : ascii) : bool :=
  let n := nat_of_ascii c in ((48 <=? n) && (n <=? 57))%nat.

Definition digit_val (c : ascii) : Z := Z.of_nat (nat_of_ascii c) - 48.

Definition is_space (c : ascii) : bool :=
  let n := nat_of_ascii c in
  (((9 <=? n) && (n <=? 13)) || (n =? 32) || (n =? 133) || (n =? 160))%nat.

Fixpoint lstrip (s : string) : string :=
  match s with
  | String c s' => if is_space c then lstrip s' else s
  | EmptyString => EmptyString
  end.

Fixpoint all_space (s : string) : bool :=
  match s with
  | EmptyString => true
  | String c s' => is_space c && all_space s'
  end.

(** The digits after the first one; [acc] is the number read so far and
    [us] tells whether the previous character was an underscore. *)
Fixpoint int_digits (acc : Z) (us : bool) (s : string) : option Z :=
  match s with
  | EmptyString => if us then None else Some acc
  | String c s' =>
      if is_digit c then int_digits (10 * acc + digit_val c) false s'
      else if Ascii.eqb c "_" then
        if us then None else int_digits acc true s'
      else if us then None
      else if all_space s then Some acc else None
  end.

Definition int_unsigned (s : string) : option Z :=
  match s with
  | String c s' => if is_digit c then int_digits (digit_val c) false s' else None
  | EmptyString => None
  end.

Definition int (s : string) : result Z :=
  let parsed :=
    match lstrip s with
    | String "+" s' => int_unsigned s'
    | String "-" s' => option_map Z.opp (int_unsigned s')
    | s' => int_unsigned s'
    end in
  match parsed with
  | Some z => Ok z
  | None => Raise (ValueError "invalid literal for int() with base 10")
  end.

(** ** Insertion-ordered dictionaries with string keys *)

Section Dict.
Variable V : Type.

Definition dict : Type := list (string * V).

Fixpoint dict_get (d : dict) (k : string) : option V :=
  match d with
  | [] => None
  | (k', v) :: d' => if String.eqb k k' then Some v else dict_get d' k
  end.

(** [d[k] = v]: an existing key keeps its place, a new one goes last. *)
Fixpoint dict_set (d : dict) (k : string) (v : V) : dict :=
  match d with
  | [] => [(k, v)]
  | (k', v') :: d' =>
      if String.eqb k k' then (k, v) :: d' else (k', v') :: dict_set d' k v
  end.

Definition dict_mem (d : dict) (k : string) : bool :=
  match dict_get d k with Some _ => true | None => false end.

Definition dict_keys (d : dict) : list string := map fst d.

(** [d[k]] as an expression. *)
Definition dict_item (d : dict) (k : string) : result V :=
  match dict_get d k with
  | Some v => Ok v
  | None => Raise (KeyError k)
  end.

(** [d.update(e)] *)
Definition dict_update (d e : dict) : dict :=
  fold_left (fun acc kv => dict_set acc (fst kv) (snd kv)) e d.
End Dict.

(** ** [sorted] on a list of strings *)

Fixpoint insert_sorted (x : string) (l : list string) : list string :=
  match l with
  | [] => [x]
  | y :: l' => if String.ltb x y then x :: l else y :: insert_sorted x l'
  end.

Fixpoint sorted (l : list string) : list string :=
  match l with
  | [] => []
  | x :: l' => insert_sorted x (sorted l')
  end.

(** ** [bisect.bisect_right] *)

(** The loop [while lo < hi: mid = (lo + hi) // 2; if x < a[mid]: hi = mid
    else: lo = mid + 1]. *)
Equations? bisect_loop (a : list string) (x : string) (lo hi : nat)
  : result nat by wf (hi - lo) lt :=
  bisect_loop a x lo hi with lt_dec lo hi => {
    | right _ := Ok lo
    | left _ with nth_error a ((lo + hi) / 2) => {
        | None := Raise IndexError
        | Some am with String.ltb x am => {
            | true := bisect_loop a x lo ((lo + hi) / 2)
            | false := bisect_loop a x ((lo + hi) / 2 + 1) hi } } }.
Proof.
  all: change (fst (Nat.divmod (lo + hi) 1 0 1)) with ((lo + hi) / 2);
       assert (Hm : lo <= (lo + hi) / 2 < hi)
         by (split; [apply Nat.div_le_lower_bound | apply Nat.Div0.div_lt_upper_bound]; lia);
       lia.
Qed.

Definition bisect_right (a : list string) (x : string) : result nat :=
  bisect_loop a x 0 (List.length a).

(** ** Version comparison and resolution *)

Definition _int_compare (a b : Z) : result Z :=
  if (a <? b)%Z then Ok (-1)%Z
  else if (a =? b)%Z then Ok 0%Z
  else if (a >? b)%Z then Ok 1%Z
  else Raise (Exception_ "").

(** The [for] loop of [_compare_version] over the remaining ranges;
    [result_] is the value of the variable [result] so far. *)
Fixpoint _compare_version_loop (ranges : list (nat * nat)) (result_ : option Z)
    (v1 v2 : string) : result (option Z) :=
  match ranges with
  | [] => Ok result_
  | (r1, r2) :: ranges' =>
      i1 <- int (slice v1 r1 r2) ;;
      i2 <- int (slice v2 r1 r2) ;;
      r <- _int_compare i1 i2 ;;
      if negb (r =? 0)%Z then Ok (Some r)
      else _compare_version_loop ranges' (Some r) v1 v2
  end.

Definition _compare_version (v1 v2 : string) : result (option Z) :=
  _compare_version_loop [(0, 4); (4, 6); (6, 8)] None v1 v2.

Definition _get_first_available_version (available_versions : list string)
  : result string :=
  match nth_error available_versions 0 with
  | Some v => Ok v
  | None => Raise IndexError
  end.

Definition _get_last_version (available_versions : list string)
    (version : string) : result (option string) :=
  i <- bisect_right available_versions version ;;
  let idx := (Z.of_nat i - 1)%Z in
  if (idx <? 0)%Z then Ok None
  else match nth_error available_versions (Z.to_nat idx) with
       | Some v => Ok (Some v)
       | None => Raise IndexError
       end.

(** ** Function objects *)

(** [param.annotation]: [inspect._empty], a [types.GenericAlias] such as
    [list[int]], or any other object. *)
Inductive annotation : Type :=
| Empty
| GenericAlias (origin : value) (args : list value)
| Plain (t : value).

(** An [inspect.Parameter]; [param_default = None] stands for
    [inspect._empty]. *)
Record parameter : Type := {
  param_name : string;
  param_default : option value;
  param_annotation : annotation
}.

(** A version-suffixed implementation such as [_some_method_20200601].
    [code] identifies its body, which the library never looks into;
    [signature] is what [inspect.signature] returns for it. *)
Record function : Type := {
  __module__ : string;
  __name__ : string;
  __qualname__ : string;
  __doc__ : option string;
  __annotations__ : dict annotation;
  __dict__ : dict value;
  signature : list parameter;
  code : nat
}.

(** The function object [_run_method] that [_module_vc] installs under the
    base name.  The closure variable [function_name] is kept in
    [proxy_function_name]; the closure variable [method_dict] is the very
    dictionary stored at [module._method_dicts[function_name]], so the
    proxy reads it there.  [__wrapped__] is kept apart from the other
    entries of the instance dictionary. *)
Record proxy : Type := {
  proxy_module : string;
  proxy_name : string;
  proxy_qualname : string;
  proxy_doc : option string;
  proxy_annotations : dict annotation;
  proxy_dict : dict value;
  proxy_wrapped : option function;
  proxy_function_name : string
}.

(** [functools.update_wrapper(wrapper, wrapped)] with the default
    [WRAPPER_ASSIGNMENTS] ([__module__], [__name__], [__qualname__],
    [__doc__], [__annotations__]) and [WRAPPER_UPDATES] ([__dict__]),
    followed by [wrapper.__wrapped__ = wrapped]. *)
Definition update_wrapper (wrapper : proxy) (wrapped : function) : proxy :=
  {| proxy_module := __module__ wrapped;
     proxy_name := __name__ wrapped;
     proxy_qualname := __qualname__ wrapped;
     proxy_doc := __doc__ wrapped;
     proxy_annotations := __annotations__ wrapped;
     proxy_dict := dict_update (proxy_dict wrapper) (__dict__ wrapped);
     proxy_wrapped := Some wrapped;
     proxy_function_name := proxy_function_name wrapper |}.

(** The function object [def _run_method] creates, before [functools.wraps]
    is applied to it. *)
Definition new_run_method (function_name : string) : proxy :=
  {| proxy_module := "simplevc.simplevc";
     proxy_name := "_run_method";
     proxy_qualname := "_module_vc.<locals>._run_method";
     proxy_doc := None;
     proxy_annotations := [];
     proxy_dict := [];
     proxy_wrapped := None;
     proxy_function_name := function_name |}.

(** ** Tool metadata *)

(** The tuple stored in [_tool_dicts[function_name][version]]. *)
Record tool : Type := {
  tool_signature : list parameter;
  tool_description : option string;
  tool_helps : dict string;
  tool_types : dict value;
  tool_defaults : dict value;
  tool_return_routine : option (function * list string)
}.

(** ** The registered module *)

Record module : Type := {
  _version : string;
  _method_dicts : dict (dict function);
  _tool_dicts : dict (dict tool);
  _module_display_version : option string;
  attrs : dict proxy
}.

Definition with_version (m : module) (v : string) : module :=
  {| _version := v;
     _method_dicts := _method_dicts m;
     _tool_dicts := _tool_dicts m;
     _module_display_version := _module_display_version m;
     attrs := attrs m |}.

Definition with_method_dicts (m : module) (d : dict (dict function)) : module :=
  {| _version := _version m;
     _method_dicts := d;
     _tool_dicts := _tool_dicts m;
     _module_display_version := _module_display_version m;
     attrs := attrs m |}.

Definition with_tool_dicts (m : module) (d : dict (dict tool)) : module :=
  {| _version := _version m;
     _method_dicts := _method_dicts m;
     _tool_dicts := d;
     _module_display_version := _module_display_version m;
     attrs := attrs m |}.

Definition with_display_version (m : module) (d : option string) : module :=
  {| _version := _version m;
     _method_dicts := _method_dicts m;
     _tool_dicts := _tool_dicts m;
     _module_display_version := d;
     attrs := attrs m |}.

Definition with_attrs (m : module) (a : dict proxy) : module :=
  {| _version := _version m;
     _method_dicts := _method_dicts m;
     _tool_dicts := _tool_dicts m;
     _module_display_version := _module_display_version m;
     attrs := a |}.

(** ** Code that runs against the module *)

Definition M (A : Type) : Type := module -> result A * module.

Definition ret {A} (a : A) : M A := fun m => (Ok a, m).

Definition raise {A} (e : exn) : M A := fun m => (Raise e, m).

Definition bind {A B} (c : M A) (k : A -> M B) : M B :=
  fun m =>
    match c m with
    | (Ok a, m') => k a m'
    | (Raise e, m') => (Raise e, m')
    end.

Definition lift {A} (r : result A) : M A := fun m => (r, m).

Definition read {A} (f : module -> A) : M A := fun m => (Ok (f m), m).

Definition write (f : module -> module) : M unit := fun m => (Ok tt, f m).

Notation "x <~ c ;; k" := (bind c (fun x => k))
  (at level 61, c at next level, right associativity).
Notation "c ;;; k" := (bind c (fun _ => k))
  (at level 61, right associativity).

(** [for x in xs: body(x)] *)
Fixpoint for_each {A} (xs : list A) (body : A -> M unit) : M unit :=
  match xs with
  | [] => ret tt
  | x :: xs' => body x ;;; for_each xs' body
  end.

(** [getattr(module, function_name)] and [setattr(module, function_name, w)]
    on the part of the module's namespace that holds the dispatch proxies:
    they are the functions of those names for every [function_name] that
    is not one of the [reserved_attributes] and is not bound to something
    else by the module's own code. *)
Definition getattr (function_name : string) : M proxy :=
  fun m =>
    match dict_get (attrs m) function_name with
    | Some w => (Ok w, m)
    | None => (Raise (AttributeError function_name), m)
    end.

Definition setattr (function_name : string) (w : proxy) : M unit :=
  write (fun m => with_attrs m (dict_set (attrs m) function_name w)).

Definition nl : string := String (ascii_of_nat 10) EmptyString.
Definition tab : string := String (ascii_of_nat 9) EmptyString.

(** The text the proxy carries as documentation when no version applies. *)
Definition unavailable_doc (function_name version first : string) : string :=
  "The method " ++ function_name ++ " is not available at version " ++ version
  ++ "." ++ nl ++ tab ++ tab ++ "The first available version is " ++ first ++ ".".

(** The text of the exception raised by the proxy when no version applies. *)
Definition unavailable_message (function_name version first : string) : string :=
  "The method " ++ function_name ++ " is not available at version " ++ version
  ++ ". " ++ nl ++ "The first available version is " ++ first ++ ".".

Definition rename_proxy (w : proxy) (function_name : string) : proxy :=
  {| proxy_module := proxy_module w;
     proxy_name := function_name;
     proxy_qualname := function_name;
     proxy_doc := proxy_doc w;
     proxy_annotations := proxy_annotations w;
     proxy_dict := proxy_dict w;
     proxy_wrapped := proxy_wrapped w;
     proxy_function_name := proxy_function_name w |}.

Definition set_doc (w : proxy) (doc : string) : proxy :=
  {| proxy_module := proxy_module w;
     proxy_name := proxy_name w;
     proxy_qualname := proxy_qualname w;
     proxy_doc := Some doc;
     proxy_annotations := proxy_annotations w;
     proxy_dict := proxy_dict w;
     proxy_wrapped := proxy_wrapped w;
     proxy_function_name := proxy_function_name w |}.

Definition _update_module_vc (function_name version : string) : M unit :=
  method_dicts <~ read _method_dicts ;;
  method_dict <~ lift (dict_item method_dicts function_name) ;;
  wrapper <~ getattr function_name ;;
  function_version <~
    lift (_get_last_version (sorted (dict_keys method_dict)) version) ;;
  wrapper' <~
    match function_version with
    | Some fv =>
        f <~ lift (dict_item method_dict fv) ;;
        ret (update_wrapper wrapper f)
    | None =>
        first <~
          lift (_get_first_available_version (sorted (dict_keys method_dict))) ;;
        ret (set_doc wrapper (unavailable_doc function_name version first))
    end ;;
  setattr function_name (rename_proxy wrapper' function_name).

Definition set_module_version (version : string) : M unit :=
  write (fun m => with_version m version) ;;;
  method_dicts <~ read _method_dicts ;;
  for_each (dict_keys method_dicts)
    (fun function_name => _update_module_vc function_name version).


(** The body of the closure [_run_method] of [_module_vc]; [call] is the
    meaning of invoking an implementation with positional and keyword
    arguments, [version = None] is the omitted keyword. *)
Definition _run_method
    (call : function -> list value -> dict value -> M value)
    (function_name : string)
    (args : list value) (version : option string) (kwargs : dict value)
  : M value :=
  version <~
    match version with
    | None => read _version
    | Some v => ret v
    end ;;
  method_dicts <~ read _method_dicts ;;
  method_dict <~ lift (dict_item method_dicts function_name) ;;
  rversion <~
    lift (_get_last_version (sorted (dict_keys method_dict)) version) ;;
  match rversion with
  | None =>
      first <~
        lift (_get_first_available_version (sorted (dict_keys method_dict))) ;;
      raise (Exception_ (unavailable_message function_name version first))
  | Some rv =>
      f <~ lift (dict_item method_dict rv) ;;
      call f args kwargs
  end.

Definition _module_vc (func : function) : M function :=
  idx <~ lift (rindex (__name__ func) "_") ;;
  let function_name := slice (__name__ func) 1 idx in
  let version := slice_from (__name__ func) (idx + 1) in
  (method_dicts <~ read _method_dicts ;;
   if negb (dict_mem method_dicts function_name)
   then write (fun m => with_method_dicts m
                          (dict_set (_method_dicts m) function_name []))
   else ret tt) ;;;
  method_dicts <~ read _method_dicts ;;
  method_dict <~ lift (dict_item method_dicts function_name) ;;
  write (fun m => with_method_dicts m
                    (dict_set (_method_dicts m) function_name
                       (dict_set method_dict version func))) ;;;
  setattr function_name (update_wrapper (new_run_method function_name) func) ;;;
  current <~ read _version ;;
  _update_module_vc function_name current ;;;
  ret func.

Definition _module_vt (description : option string)
    (helps : dict string) (types defaults : dict value)
    (return_routine : option (function * list string))
    (func : function) : M function :=
  idx <~ lift (rindex (__name__ func) "_") ;;
  let function_name := slice (__name__ func) 1 idx in
  let version := slice_from (__name__ func) (idx + 1) in
  (tool_dicts <~ read _tool_dicts ;;
   if negb (dict_mem tool_dicts function_name)
   then write (fun m => with_tool_dicts m
                          (dict_set (_tool_dicts m) function_name []))
   else ret tt) ;;;
  tool_dicts <~ read _tool_dicts ;;
  tool_dict <~ lift (dict_item tool_dicts function_name) ;;
  write (fun m => with_tool_dicts m
                    (dict_set (_tool_dicts m) function_name
                       (dict_set tool_dict version
                          {| tool_signature := signature func;
                             tool_description := description;
                             tool_helps := helps;
                             tool_types := types;
                             tool_defaults := defaults;
                             tool_return_routine := return_routine |}))) ;;;
  ret func.

(** [register(module, module_display_version)]; [_default_version] is the
    global of that name at the time of the call. *)
Definition register (_default_version : string)
    (module_display_version : option string) : M unit :=
  write (fun m => with_method_dicts m []) ;;;
  write (fun m => with_tool_dicts m []) ;;;
  set_module_version _default_version ;;;
  write (fun m => with_display_version m module_display_version).

(** The closures [register] installs on the module. *)
Definition set_version (version : string) : M unit :=
  set_module_version version.


Definition vc (func : function) : M function := _module_vc func.

Definition vt (description : option string)
    (helps : dict string) (types defaults : dict value)
    (return_routine : option (function * list string))
    (func : function) : M function :=
  _module_vt description helps types defaults return_routine func.

(** ** The generated command-line grammar ([module_main]) *)

Definition value_eq_dec (a b : value) : {a = b} + {a <> b}.
Proof.
  decide equality;
    first [apply Bool.bool_dec | apply Z.eq_dec | apply string_dec
          | apply Nat.eq_dec].
Defined.

(** The keyword arguments collected in [kwargs] for one [add_argument]
    call; [None] is a key that was not set. *)
Record argument_kwargs : Type := {
  kw_help : string;
  kw_default : option value;
  kw_required : bool;
  kw_type : option value;
  kw_nargs : option string
}.

(** What [_subparsers.add_parser] returns, with the arguments added to it
    so far, in order. *)
Record subparser : Type := {
  sub_name : string;
  sub_help : string;
  sub_description : option string;
  sub_arguments : list (string * argument_kwargs)
}.

Record argument_parser : Type := {
  parser_description : string;
  parser_subparsers : list subparser
}.

(** Lines 321-346: the [kwargs] of the flag of one signature parameter. *)
Definition parameter_kwargs (helps : dict string) (types defaults : dict value)
    (param : parameter) : result argument_kwargs :=
  let help :=
    match dict_get helps (param_name param) with
    | Some h => h
    | None => "_"
    end in
  let '(default, required) :=
    match dict_get defaults (param_name param) with
    | Some d => (Some d, false)
    | None =>
        match param_default param with
        | Some d => (Some d, false)
        | None => (None, true)
        end
    end in
  type_nargs <-
    match dict_get types (param_name param) with
    | Some t => Ok (Some t, None)
    | None =>
        match param_annotation param with
        | Empty => Ok (None, None)
        | GenericAlias origin args =>
            if value_eq_dec origin (VType "list") then
              match nth_error args 0 with
              | Some t => Ok (Some t, Some "*")
              | None => Raise IndexError
              end
            else Raise (Exception_ "Only list is supported in GenericAlias")
        | Plain t => Ok (Some t, None)
        end
    end ;;
  Ok {| kw_help := help;
        kw_default := default;
        kw_required := required;
        kw_type := fst type_nargs;
        kw_nargs := snd type_nargs |}.

(** Lines 354-369: the [kwargs] of the flag of one parameter of the
    return routine. *)
Definition return_parameter_kwargs (helps : dict string)
    (types defaults : dict value) (param_name : string)
  : result argument_kwargs :=
  let help :=
    match dict_get helps param_name with
    | Some h => h
    | None => "_"
    end in
  type <-
    match dict_get types param_name with
    | Some t => Ok t
    | None => Raise (Exception_ "")
    end ;;
  let '(default, required) :=
    match dict_get defaults param_name with
    | Some d => (Some d, false)
    | None => (None, true)
    end in
  Ok {| kw_help := help;
        kw_default := default;
        kw_required := required;
        kw_type := Some type;
        kw_nargs := None |}.

Section Grammar.
(** What [argparse] itself raises on an [add_argument] call, if anything
    (a conflicting option string, for instance); the library relies on
    it without constraining it. *)
Variable add_argument_error :
  subparser -> string -> argument_kwargs -> option exn.

Definition add_argument (parser : subparser) (flag : string)
    (kwargs : argument_kwargs) : result subparser :=
  match add_argument_error parser flag kwargs with
  | Some e => Raise e
  | None =>
      Ok {| sub_name := sub_name parser;
            sub_help := sub_help parser;
            sub_description := sub_description parser;
            sub_arguments := sub_arguments parser ++ [(flag, kwargs)] |}
  end.

(** [for param in signature.parameters.values(): ...] *)
Fixpoint add_parameters (helps : dict string) (types defaults : dict value)
    (params : list parameter) (parser : subparser) : result subparser :=
  match params with
  | [] => Ok parser
  | param :: params' =>
      kwargs <- parameter_kwargs helps types defaults param ;;
      parser' <- add_argument parser ("-" ++ param_name param) kwargs ;;
      add_parameters helps types defaults params' parser'
  end.

(** [for param_name in return_params: ...] *)
Fixpoint add_return_parameters (helps : dict string)
    (types defaults : dict value)
    (return_params : list string) (parser : subparser) : result subparser :=
  match return_params with
  | [] => Ok parser
  | param_name :: return_params' =>
      kwargs <- return_parameter_kwargs helps types defaults param_name ;;
      parser' <- add_argument parser ("-" ++ param_name) kwargs ;;
      add_return_parameters helps types defaults return_params' parser'
  end.

(** One subcommand: the body of the loop over [_tool_dicts] once a
    version [rversion] has been found. *)
Definition add_tool (func_name rversion : string) (t : tool)
  : result subparser :=
  let parser :=
    {| sub_name := func_name;
       sub_help := "version-" ++ rversion;
       sub_description := tool_description t;
       sub_arguments := [] |} in
  parser <- add_parameters (tool_helps t) (tool_types t) (tool_defaults t)
              (tool_signature t) parser ;;
  match tool_return_routine t with
  | Some return_routine =>
      add_return_parameters (tool_helps t) (tool_types t) (tool_defaults t)
        (snd return_routine) parser
  | None => Ok parser
  end.

(** [for func_name, tool_dict in module._tool_dicts.items(): ...];
    the accumulators are the subcommands added to [_subparsers] and the
    dictionary [_return_routines]. *)
Fixpoint add_tools (version : string) (items : list (string * dict tool))
    (subparsers : list subparser)
    (_return_routines : dict (function * list string))
  : result (list subparser * dict (function * list string)) :=
  match items with
  | [] => Ok (subparsers, _return_routines)
  | (func_name, tool_dict) :: items' =>
      rversion <- _get_last_version (sorted (dict_keys tool_dict)) version ;;
      match rversion with
      | None => add_tools version items' subparsers _return_routines
      | Some rv =>
          t <- dict_item tool_dict rv ;;
          parser <- add_tool func_name rv t ;;
          add_tools version items' (subparsers ++ [parser])
            match tool_return_routine t with
            | Some return_routine =>
                dict_set _return_routines func_name return_routine
            | None => _return_routines
            end
      end
  end.

(** Lines 305-371 of [module_main]: the parser and the return routines
    built from the tool table at the active version. *)
Definition module_main_parser (m : module)
  : result (argument_parser * dict (function * list string)) :=
  built <- add_tools (_version m) (_tool_dicts m) [] [] ;;
  Ok ({| parser_description :=
           match _module_display_version m with
           | Some d => "version-" ++ d
           | None => ""
           end;
         parser_subparsers := fst built |},
      snd built).
End Grammar.

(** [argparse] with its default conflict handler: an option string that
    the subparser already has ([-h], [--help] or an earlier flag) is
    refused. *)
Definition conflict_error (parser : subparser) (flag : string)
    (kwargs : argument_kwargs) : option exn :=
  if in_dec string_dec flag
       ("-h" :: "--help" :: map fst (sub_arguments parser))
  then Some (ArgumentError flag)
  else None.

(** ** Modules reached by registration *)

(** The base name and the version that [_module_vc] and [_module_vt] read
    off a function name whose last underscore is at [idx]. *)
Definition base_name (name : string) (idx : nat) : string := slice name 1 idx.
Definition version_suffix (name : string) (idx : nat) : string :=
  slice_from name (idx + 1).

(** The attributes of the module that are not dispatch proxies and that
    the library itself relies on: the nine that [register] installs, and
    the two attributes of a module object to which a function cannot be
    assigned.  [setattr(module, function_name, _run_method)] with one of
    these as [function_name] replaces the attribute (or is refused by the
    module object), which the fields of [module] cannot express; the
    statements that depend on it exclude these base names. *)
Definition reserved_attributes : list string :=
  ["_method_dicts"; "_tool_dicts"; "_version"; "_module_display_version";
   "set_version"; "get_version"; "vc"; "vt"; "main"; "__dict__"; "__class__"].

Definition reserved (name : string) : bool :=
  existsb (String.eqb name) reserved_attributes.

(** Decorating [func] in the module leaves the other attributes alone:
    the name that the [def] statement binds afterwards is neither one of
    the reserved attributes nor the name of an installed proxy, and the
    base name under which [vc] installs the proxy is not reserved. *)
Definition decorates_safely (m : module) (func : function) : bool :=
  negb (reserved (__name__ func))
  && negb (dict_mem (attrs m) (__name__ func))
  && match rfind "_" (__name__ func) with
     | Some idx => negb (reserved (base_name (__name__ func) idx))
     | None => true
     end.

(** A module on which [register] ran once, followed by any number of
    [vc] and [vt] decorations that leave the other attributes alone, and
    of version changes; nothing else rebinds the attributes of the
    module. *)
Inductive registered : module -> Prop :=
| registered_register m0 default_version display :
    attrs m0 = [] ->
    registered (snd (register default_version display m0))
| registered_vc m func :
    registered m -> decorates_safely m func = true ->
    registered (snd (vc func m))
| registered_vt m description helps types defaults return_routine func :
    registered m -> decorates_safely m func = true ->
    registered (snd (vt description helps types defaults return_routine func m))
| registered_set_version m version :
    registered m -> registered (snd (set_version version m)).

(** Every base name of the registry has at least one version and a proxy
    installed under it. *)
Definition well_formed (m : module) : Prop :=
  forall function_name method_dict,
    dict_get (_method_dicts m) function_name = Some method_dict ->
    method_dict <> [] /\
    exists w, dict_get (attrs m) function_name = Some w.

(** A well-formed version key: eight decimal digits. *)
Fixpoint all_digits (s : string) : bool :=
  match s with
  | EmptyString => true
  | String c s' => is_digit c && all_digits s'
  end.

Definition version_key (v : string) : Prop :=
  String.length v = 8 /\ all_digits v = true.

(** ** Notions used in the statements *)

(** Ascending, read position by position. *)
Definition ascending (a : list string) : Prop :=
  forall i j u v,
    i <= j -> nth_error a i = Some u -> nth_error a j = Some v -> str_le u v.

(** The proxy metadata that [_update_module_vc] computes from the version
    table of a name, the version in effect and the proxy as it stands:
    the part of that function between reading the module and writing the
    proxy back. *)
Definition refreshed (method_dict : dict function)
    (function_name version : string) (wrapper : proxy) : result proxy :=
  function_version <-
    _get_last_version (sorted (dict_keys method_dict)) version ;;
  wrapper' <-
    match function_version with
    | Some fv =>
        f <- dict_item method_dict fv ;;
        Ok (update_wrapper wrapper f)
    | None =>
        first <- _get_first_available_version (sorted (dict_keys method_dict)) ;;
        Ok (set_doc wrapper (unavailable_doc function_name version first))
    end ;;
  Ok (rename_proxy wrapper' function_name).

(** A proxy whose metadata is already what a refresh would make it. *)
Definition fresh (function_name version : string) (m : module) : Prop :=
  exists method_dict w,
    dict_get (_method_dicts m) function_name = Some method_dict /\
    dict_get (attrs m) function_name = Some w /\
    refreshed method_dict function_name version w = Ok w.

(** The loop of [set_module_version] over a list of names. *)
Definition refresh_all (version : string) (names : list string) : M unit :=
  for_each names (fun function_name => _update_module_vc function_name version).

(** A tool has metadata registered at a version not after [version]. *)
Definition applicable (tool_dict : dict tool) (version : string) : bool :=
  existsb (fun k => String.leb k version) (dict_keys tool_dict).

(** The number written by a string of decimal digits, read left to right
    from [acc]. *)
Fixpoint decimal (acc : Z) (s : string) : Z :=
  match s with
  | EmptyString => acc
  | String c s' => decimal (10 * acc + digit_val c) s'
  end.

(** The integer [_int_compare] returns for an ordering. *)
Definition sign (c : comparison) : Z :=
  match c with
  | Lt => (-1)%Z
  | Eq => 0%Z
  | Gt => 1%Z
  end.

(** ** The example module [example/pm.py] *)

Definition exec {A} (c : M A) (m : module) : module := snd (c m).

Definition def (name : string) (doc : string) (params : list parameter)
    (body : nat) : function :=
  {| __module__ := "pm";
     __name__ := name;
     __qualname__ := name;
     __doc__ := Some doc;
     __annotations__ :=
       flat_map (fun p => match param_annotation p with
                          | Empty => []
                          | a => [(param_name p, a)]
                          end) params;
     __dict__ := [];
     signature := params;
     code := body |}.

Definition positional (name : string) : parameter :=
  {| param_name := name; param_default := None; param_annotation := Empty |}.

Definition annotated (name : string) (t : value) : parameter :=
  {| param_name := name; param_default := None; param_annotation := Plain t |}.

Definition _some_method_20200601 : function :=
  def "_some_method_20200601"
      "This is the docstring for method _some_method_20200601"
      [positional "a"; positional "b"; positional "c"] 1.

Definition _some_method_20200721 : function :=
  def "_some_method_20200721"
      "This is the docstring for method _some_method_20200721"
      [positional "a"; positional "b"; positional "c"; positional "d"] 2.

Definition _other_method_20200801 : function :=
  def "_other_method_20200801"
      "This is the docstring for method _other_method_20200801"
      [positional "a"; positional "b"; positional "c"; positional "d"] 3.

Definition _copy_file_20200701 : function :=
  def "_copy_file_20200701"
      "This is the docstring for method _copy_file_20200701"
      [annotated "srcfile" (VType "str"); annotated "dstfile" (VType "str")] 4.

(** The module object before [register] has run on it. *)
Definition blank : module :=
  {| _version := "";
     _method_dicts := [];
     _tool_dicts := [];
     _module_display_version := None;
     attrs := [] |}.

(** [pm] once imported on 1 December 2020. *)
Definition pm : module :=
  exec (vt (Some "File copy method")
           [("srcfile", "Input source file"); ("dstfile", "Output source file")]
           [] [] None _copy_file_20200701)
    (exec (vc _copy_file_20200701)
       (exec (vc _other_method_20200801)
          (exec (vc _some_method_20200721)
             (exec (vc _some_method_20200601)
                (exec (register "20201201" None) blank))))).

(** An implementation semantics for examples: a call leaves the module
    alone and returns the name of the implementation that ran. *)
Definition names_call (f : function) (args : list value) (kwargs : dict value)
  : M value :=
  ret (VStr (__name__ f)).

(** ** Calling the installed attribute *)

(** A call of the attribute [function_name] of the module, with
    positional arguments, an optional [version] keyword and other keyword
    arguments: the attribute is looked up and the closure found there runs
    with its own [function_name]. *)
Definition call_proxy
    (call : function -> list value -> dict value -> M value)
    (function_name : string)
    (args : list value) (version : option string) (kwargs : dict value)
  : M value :=
  w <~ getattr function_name ;;
  _run_method call (proxy_function_name w) args version kwargs.

(** Every base name of the registry has a proxy that is bound to that
    name and displays it. *)
Definition proxies_bound (m : module) : Prop :=
  forall function_name method_dict,
    dict_get (_method_dicts m) function_name = Some method_dict ->
    method_dict <> [] /\
    exists w,
      dict_get (attrs m) function_name = Some w /\
      proxy_function_name w = function_name /\
      proxy_name w = function_name /\
      proxy_qualname w = function_name.

(** What was built, for examples: the parser and return routines of a
    successful build, an empty parser otherwise. *)
Definition built (r : result (argument_parser * dict (function * list string)))
  : argument_parser * dict (function * list string) :=
  match r with
  | Ok b => b
  | Raise _ => ({| parser_description := ""; parser_subparsers := [] |}, [])
  end.

(** ** The leading options of the command line ([module_main]) *)

(** Lines 291-301: the [while] loop over [sys.argv] from position [i],
    with the value of [display_help] so far; it returns the position it
    stops at and [display_help]. *)
Equations? options_loop (argv : list string) (i : nat) (display_help : bool)
    (m : module) : result (nat * bool) * module
  by wf (List.length argv - i) lt :=
  options_loop argv i display_help m with lt_dec i (List.length argv) => {
    | right _ := (Ok (i, display_help), m)
    | left _ with nth_error argv i => {
        | None := (Raise IndexError, m)
        | Some a with String.eqb a "-v" => {
            | true with nth_error argv (i + 1) => {
                | None := (Raise IndexError, m)
                | Some v with set_version v m => {
                    | (Ok _, m') := options_loop argv (i + 2) display_help m'
                    | (Raise e, m') := (Raise e, m') } }
            | false with String.eqb a "-h" => {
                | true := options_loop argv (i + 1) true m
                | false := (Ok (i, display_help), m) } } } }.
Proof.
  all: lia.
Qed.

(** Lines 291-303: the loop from position 1, then [display_help] is also
    set when nothing is left after the options. *)
Definition module_main_options (argv : list string) : M (nat * bool) :=
  r <~ options_loop argv 1 false ;;
  ret (fst r, if (fst r =? List.length argv)%nat then true else snd r).

(** The options as they are written on the command line. *)
Inductive leading_option : Type :=
| OptV (version : string)
| OptH.

Definition option_tokens (o : leading_option) : list string :=
  match o with
  | OptV v => ["-v"; v]
  | OptH => ["-h"]
  end.

Definition is_OptH (o : leading_option) : bool :=
  match o with
  | OptH => true
  | OptV _ => false
  end.

(** The version named by the last [-v], [v0] when there is none. *)
Definition last_version (opts : list leading_option) (v0 : string) : string :=
  fold_left (fun v o => match o with OptV v' => v' | OptH => v end) opts v0.

(** What follows the options: nothing, or a word that is no option. *)
Definition ends_options (rest : list string) : Prop :=
  match rest with
  | [] => True
  | a :: _ => a <> "-v" /\ a <> "-h"
  end.

(** ** The tool manual ([generate_tool_manual]) *)

(** Lines 554-579: the line of the manual for one signature parameter.
    The statements that fill [kwargs] are those of [module_main];
    [str_] is [str] on the declared defaults. *)
Definition manual_parameter_line (str_ : value -> string)
    (helps : dict string) (types defaults : dict value) (param : parameter)
  : result string :=
  kwargs <- parameter_kwargs helps types defaults param ;;
  Ok ("- **-" ++ param_name param ++ "**: "
      ++ (if negb (kw_required kwargs) then "[optional] " else "")
      ++ kw_help kwargs
      ++ match kw_default kwargs with
         | Some d => " [default: " ++ str_ d ++ "]"
         | None => ""
         end).

(** [for param in signature.parameters.values(): ...] with the list
    [lines] so far. *)
Fixpoint manual_parameters (str_ : value -> string)
    (helps : dict string) (types defaults : dict value)
    (params : list parameter) (lines : list string) : result (list string) :=
  match params with
  | [] => Ok lines
  | param :: params' =>
      line <- manual_parameter_line str_ helps types defaults param ;;
      manual_parameters str_ helps types defaults params' (lines ++ [line])
  end.

(** The heading lines of the section of one tool. *)
Definition manual_heading (func_name rversion : string) (t : tool)
  : list string :=
  ["### " ++ func_name;
   "*version: " ++ rversion ++ "*";
   match tool_description t with
   | Some d => d
   | None => ""
   end;
   "#### Parameters"].

(** [for func_name, tool_dict in module._tool_dicts.items(): ...] with the
    list [lines] so far. *)
Fixpoint manual_tools (str_ : value -> string) (version : string)
    (items : list (string * dict tool)) (lines : list string)
  : result (list string) :=
  match items with
  | [] => Ok lines
  | (func_name, tool_dict) :: items' =>
      rversion <- _get_last_version (sorted (dict_keys tool_dict)) version ;;
      match rversion with
      | None => manual_tools str_ version items' lines
      | Some rv =>
          t <- dict_item tool_dict rv ;;
          lines' <- manual_parameters str_ (tool_helps t) (tool_types t)
                      (tool_defaults t) (tool_signature t)
                      (lines ++ manual_heading func_name rv t) ;;
          manual_tools str_ version items' lines'
      end
  end.

(** The list [lines] that [generate_tool_manual(module, version)] has
    built when it reaches its end; [version = None] is the omitted
    argument. *)
Definition generate_tool_manual_lines (str_ : value -> string) (m : module)
    (version : option string) : result (list string) :=
  manual_tools str_
    match version with
    | Some root_version => root_version
    | None => _version m
    end
    (_tool_dicts m) ["## All tools"].

(** One section of the manual, for a tool of the table at a version: the
    heading for the greatest version not after it, then one line for each
    signature parameter. *)
Definition section_of (version : string) (item : string * dict tool)
    (section : list string) : Prop :=
  exists rv t parameter_lines,
    In rv (dict_keys (snd item)) /\ str_le rv version /\
    (forall k, In k (dict_keys (snd item)) -> str_le k version -> str_le k rv) /\
    dict_get (snd item) rv = Some t /\
    section = (manual_heading (fst item) rv t ++ parameter_lines)%list /\
    List.length parameter_lines = List.length (tool_signature t).

(** The two shapes of the metadata of a refreshed proxy, in terms of the
    version table. *)
Definition shows (method_dict : dict function) (function_name version : string)
    (w : proxy) : Prop :=
  proxy_name w = function_name /\
  proxy_qualname w = function_name /\
  ((exists e f,
       In e (dict_keys method_dict) /\ str_le e version /\
       (forall e', In e' (dict_keys method_dict) -> str_le e' version ->
                   str_le e' e) /\
       dict_get method_dict e = Some f /\
       proxy_doc w = __doc__ f /\ proxy_wrapped w = Some f) \/
   (exists first,
       (forall k, In k (dict_keys method_dict) -> str_lt version k) /\
       In first (dict_keys method_dict) /\
       (forall k, In k (dict_keys method_dict) -> str_le first k) /\
       proxy_doc w =
       Some ("The method " ++ function_name ++ " is not available at version "
             ++ version ++ "." ++ String "010" (String "009" (String "009"
             ("The first available version is " ++ first ++ ".")))))).

(** How one subcommand relates to the tool table at a version: it is
    built from the metadata at the greatest version not after it. *)
Definition built_from check (version : string) (item : string * dict tool)
    (parser : subparser) : Prop :=
  exists rv t,
    In rv (dict_keys (snd item)) /\ str_le rv version /\
    (forall k, In k (dict_keys (snd item)) -> str_le k version -> str_le k rv) /\
    dict_get (snd item) rv = Some t /\
    add_tool check (fst item) rv t = Ok parser.

(** * Properties *)

Unset Implicit Arguments.

(** ** The order on strings *)

Lemma ascii_compare_refl (c : ascii) : Ascii.compare c c = Eq.
Proof. unfold Ascii.compare. apply N.compare_refl. Qed.

Lemma ascii_compare_lt_trans (a b c : ascii) :
  Ascii.compare a b = Lt -> Ascii.compare b c = Lt -> Ascii.compare a c = Lt.
Proof.
  unfold Ascii.compare. rewrite !N.compare_lt_iff. apply N.lt_trans.
Qed.

Lemma compare_refl (s : string) : String.compare s s = Eq.
Proof.
  induction s as [|c s IH]; simpl; [reflexivity|].
  now rewrite ascii_compare_refl.
Qed.

Lemma compare_lt_trans (a b c : string) :
  String.compare a b = Lt -> String.compare b c = Lt -> String.compare a c = Lt.
Proof.
  revert b c. induction a as [|x a IH]; intros [|y b] [|z c]; simpl;
    try congruence.
  destruct (Ascii.compare x y) eqn:Hxy; try discriminate;
    destruct (Ascii.compare y z) eqn:Hyz; try discriminate; intros Hab Hbc.
  - apply Ascii.compare_eq_iff in Hxy, Hyz. subst.
    rewrite ascii_compare_refl. eauto.
  - apply Ascii.compare_eq_iff in Hxy. subst. now rewrite Hyz.
  - apply Ascii.compare_eq_iff in Hyz. subst. now rewrite Hxy.
  - now rewrite (ascii_compare_lt_trans _ _ _ Hxy Hyz).
Qed.

Lemma str_lt_compare (a b : string) : str_lt a b <-> String.compare a b = Lt.
Proof.
  unfold str_lt, String.ltb. destruct (String.compare a b); split; congruence.
Qed.

Lemma str_le_compare (a b : string) : str_le a b <-> String.compare a b <> Gt.
Proof.
  unfold str_le, String.leb. destruct (String.compare a b); split; congruence.
Qed.

Lemma str_le_lt_eq (a b : string) : str_le a b <-> str_lt a b \/ a = b.
Proof.
  rewrite str_le_compare, str_lt_compare. split.
  - destruct (String.compare a b) eqn:H; intros Hne.
    + right. now apply String.compare_eq_iff.
    + now left.
    + congruence.
  - intros [H | ->]; [congruence | rewrite compare_refl; congruence].
Qed.

Lemma str_le_refl (a : string) : str_le a a.
Proof. apply str_le_lt_eq. now right. Qed.

Lemma str_lt_irrefl (a : string) : ~ str_lt a a.
Proof. rewrite str_lt_compare, compare_refl. congruence. Qed.

Lemma str_lt_trans (a b c : string) : str_lt a b -> str_lt b c -> str_lt a c.
Proof. rewrite !str_lt_compare. apply compare_lt_trans. Qed.

Lemma str_le_trans (a b c : string) : str_le a b -> str_le b c -> str_le a c.
Proof.
  rewrite !str_le_lt_eq. intros [Hab | ->] [Hbc | ->]; auto.
  left. eapply str_lt_trans; eauto.
Qed.

Lemma str_le_lt_trans (a b c : string) : str_le a b -> str_lt b c -> str_lt a c.
Proof.
  rewrite str_le_lt_eq. intros [Hab | ->]; auto. now apply str_lt_trans.
Qed.

Lemma str_lt_le_trans (a b c : string) : str_lt a b -> str_le b c -> str_lt a c.
Proof.
  rewrite str_le_lt_eq. intros Hab [Hbc | <-]; auto.
  eapply str_lt_trans; eauto.
Qed.

Lemma ltb_false_le (a b : string) : String.ltb a b = false <-> str_le b a.
Proof.
  rewrite str_le_compare, (String.compare_antisym b a). unfold String.ltb.
  destruct (String.compare a b); simpl; split; congruence.
Qed.

Lemma str_lt_not_le (a b : string) : str_lt a b -> ~ str_le b a.
Proof.
  intros Hlt Hle. apply (str_lt_irrefl a).
  eapply str_lt_le_trans; eauto.
Qed.

Lemma str_lt_le (a b : string) : str_lt a b -> str_le a b.
Proof. intros H. apply str_le_lt_eq. now left. Qed.

Lemma str_lt_or_le (a b : string) : str_lt a b \/ str_le b a.
Proof.
  destruct (String.ltb a b) eqn:H; [now left | right; now apply ltb_false_le].
Qed.

Create HintDb strord.
#[local] Hint Resolve str_le_refl str_lt_le : strord.

(** ** Ascending lists and binary search *)

Lemma Sorted_ascending (a : list string) : Sorted str_le a -> ascending a.
Proof.
  intros Hs. apply Sorted_StronglySorted in Hs.
  2: { intros x y z. apply str_le_trans. }
  induction Hs as [|x a Hs IH Hall]; intros i j u v Hij Hi Hj.
  - destruct i; discriminate.
  - destruct i as [|i], j as [|j]; simpl in *; try lia.
    + injection Hi as <-. injection Hj as <-. auto with strord.
    + injection Hi as <-. apply nth_error_In in Hj.
      rewrite Forall_forall in Hall. auto.
    + apply (IH i j u v); auto. lia.
Qed.

(** The loop of [bisect_right] ends, and keeps its invariant: everything
    left of the answer is at most [x], everything from the answer on is
    greater. *)
Lemma bisect_loop_spec (a : list string) (x : string) (lo hi : nat) :
  ascending a ->
  lo <= hi <= List.length a ->
  (forall i v, i < lo -> nth_error a i = Some v -> str_le v x) ->
  (forall i v, hi <= i -> nth_error a i = Some v -> str_lt x v) ->
  exists r,
    bisect_loop a x lo hi = Ok r /\ lo <= r <= hi /\
    (forall i v, i < r -> nth_error a i = Some v -> str_le v x) /\
    (forall i v, r <= i -> nth_error a i = Some v -> str_lt x v).
Proof.
  intros Hasc. funelim (bisect_loop a x lo hi); intros Hb Hlo Hhi.
  - exists lo. repeat split; auto; try lia.
    intros i v Hi. apply Hhi. lia.
  - exfalso.
    assert (Hm : (lo + hi) / 2 < hi)
      by (apply Nat.Div0.div_lt_upper_bound; lia).
    apply nth_error_None in Heq. lia.
  - assert (Hm : lo <= (lo + hi) / 2 < hi)
      by (split; [apply Nat.div_le_lower_bound
                 | apply Nat.Div0.div_lt_upper_bound]; lia).
    destruct (H Hasc) as (r & Hr & Hrb & Hl & Hg); auto; try lia.
    + intros i v Hi Hv. eapply str_lt_le_trans; [exact Heq|].
      eapply Hasc; eauto.
    + exists r. repeat split; auto; lia.
  - assert (Hm : lo <= (lo + hi) / 2 < hi)
      by (split; [apply Nat.div_le_lower_bound
                 | apply Nat.Div0.div_lt_upper_bound]; lia).
    destruct (H Hasc) as (r & Hr & Hrb & Hl & Hg); auto; try lia.
    + intros i v Hi Hv. apply ltb_false_le in Heq.
      eapply str_le_trans; [|exact Heq].
      eapply (Hasc i ((lo + hi) / 2)); eauto. lia.
    + exists r. repeat split; auto; lia.
Qed.

Lemma bisect_right_spec (a : list string) (x : string) :
  ascending a ->
  exists r,
    bisect_right a x = Ok r /\ r <= List.length a /\
    (forall i v, i < r -> nth_error a i = Some v -> str_le v x) /\
    (forall i v, r <= i -> nth_error a i = Some v -> str_lt x v).
Proof.
  intros Hasc. unfold bisect_right.
  assert (Hlo : forall i v, i < 0 -> nth_error a i = Some v -> str_le v x)
    by (intros; lia).
  assert (Hhi : forall i v,
             List.length a <= i -> nth_error a i = Some v -> str_lt x v).
  { intros i v Hi Hv.
    assert (nth_error a i = None) by now apply nth_error_None.
    congruence. }
  destruct (bisect_loop_spec a x 0 (List.length a) Hasc
              (conj (Nat.le_0_l _) (Nat.le_refl _)) Hlo Hhi)
    as (r & Hr & Hb & Hl & Hg).
  exists r. repeat split; auto. lia.
Qed.

(** The two outcomes of the resolver on an ascending list. *)
Lemma _get_last_version_cases (a : list string) (x : string) :
  ascending a ->
  (_get_last_version a x = Ok None /\ forall v, In v a -> str_lt x v) \/
  (exists e,
      _get_last_version a x = Ok (Some e) /\ In e a /\ str_le e x /\
      forall e', In e' a -> str_le e' x -> str_le e' e).
Proof.
  intros Hasc. unfold _get_last_version.
  destruct (bisect_right_spec a x Hasc) as (r & -> & Hlen & Hl & Hg). simpl.
  destruct r as [|r].
  - left. split; [reflexivity|].
    intros v Hv. apply In_nth_error in Hv as [i Hi]. apply (Hg i); auto. lia.
  - right.
    replace (Z.of_nat (S r) - 1 <? 0)%Z with false by (symmetry; apply Z.ltb_ge; lia).
    replace (Z.to_nat (Z.of_nat (S r) - 1)) with r by lia.
    destruct (nth_error a r) as [e|] eqn:He.
    2: { apply nth_error_None in He. lia. }
    exists e. split; [reflexivity|]. split; [eapply nth_error_In; eauto|].
    split; [apply (Hl r); auto|].
    intros e' Hin Hle. apply In_nth_error in Hin as [i Hi].
    destruct (Nat.le_gt_cases i r) as [Hir | Hir].
    + eapply Hasc; eauto.
    + exfalso. apply (str_lt_not_le x e'); auto.
      apply (Hg i); auto.
Qed.

(** C1.  On an ascending list [L] the resolver returns; when it returns a
    version, that version is the greatest element of [L] that is at most
    the requested version [V]; and it returns [None] exactly when [V] is
    strictly below every element of [L]. *)
Theorem resolver_returns_predecessor (L : list string) (V : string) :
  Sorted str_le L ->
  exists r,
    _get_last_version L V = Ok r /\
    (forall e, r = Some e ->
       In e L /\ str_le e V /\
       forall e', In e' L -> str_le e' V -> str_le e' e) /\
    (r = None <-> forall e, In e L -> str_lt V e).
Proof.
  intros HL. apply Sorted_ascending in HL.
  destruct (_get_last_version_cases L V HL) as [[Hr Hall] | (e & Hr & Hin & Hle & Hmax)].
  - exists None. split; [exact Hr|]. split; [discriminate|]. tauto.
  - exists (Some e). split; [exact Hr|]. split.
    + intros e0 [= <-]. auto.
    + split; [discriminate|]. intros Hall. exfalso.
      apply (str_lt_not_le V e (Hall e Hin) Hle).
Qed.

Lemma resolver_returns_predecessor_witness :
  exists r,
    _get_last_version ["20200601"; "20200721"] "20200615" = Ok r /\
    (forall e, r = Some e ->
       In e ["20200601"; "20200721"] /\ str_le e "20200615" /\
       forall e', In e' ["20200601"; "20200721"] ->
                  str_le e' "20200615" -> str_le e' e) /\
    (r = None <-> forall e, In e ["20200601"; "20200721"] -> str_lt "20200615" e).
Proof.
  apply (resolver_returns_predecessor ["20200601"; "20200721"] "20200615").
  repeat constructor.
Defined.

(** ** [sorted] *)

Lemma insert_sorted_In (x y : string) (l : list string) :
  In y (insert_sorted x l) <-> y = x \/ In y l.
Proof.
  induction l as [|z l IH]; simpl.
  - intuition.
  - destruct (String.ltb x z); simpl; rewrite ?IH; intuition.
Qed.

Lemma sorted_In (y : string) (l : list string) : In y (sorted l) <-> In y l.
Proof.
  induction l as [|x l IH]; simpl; [tauto|].
  rewrite insert_sorted_In, IH. intuition.
Qed.

Lemma insert_sorted_Sorted (x : string) (l : list string) :
  Sorted str_le l -> Sorted str_le (insert_sorted x l).
Proof.
  induction l as [|y l IH]; simpl; intros Hs.
  - repeat constructor.
  - destruct (String.ltb x y) eqn:Hxy.
    + constructor; [assumption|]. constructor. now apply str_lt_le.
    + apply ltb_false_le in Hxy. inversion Hs as [|? ? Hs' Hhd]; subst.
      constructor; [auto|].
      destruct l as [|z l]; simpl.
      * now constructor.
      * inversion Hhd; subst.
        destruct (String.ltb x z); now constructor.
Qed.

Lemma sorted_Sorted (l : list string) : Sorted str_le (sorted l).
Proof.
  induction l as [|x l IH]; simpl; [constructor|].
  now apply insert_sorted_Sorted.
Qed.

Lemma sorted_ascending (l : list string) : ascending (sorted l).
Proof. apply Sorted_ascending, sorted_Sorted. Qed.

Lemma insert_sorted_not_nil (x : string) (l : list string) :
  insert_sorted x l <> [].
Proof. destruct l as [|y l]; simpl; [|destruct (String.ltb x y)]; discriminate. Qed.

(** The first element of a sorted non-empty list is its least element. *)
Lemma _get_first_available_version_sorted (l : list string) :
  l <> [] ->
  exists first,
    _get_first_available_version (sorted l) = Ok first /\
    In first l /\ forall v, In v l -> str_le first v.
Proof.
  intros Hne. unfold _get_first_available_version.
  destruct (sorted l) as [|first rest] eqn:Hs.
  - destruct l as [|x l]; [congruence|]. simpl in Hs.
    now apply insert_sorted_not_nil in Hs.
  - exists first. simpl. split; [reflexivity|].
    split.
    + apply sorted_In. rewrite Hs. now left.
    + intros v Hv. apply sorted_In in Hv.
      apply In_nth_error in Hv as [i Hi].
      apply (sorted_ascending l 0 i); auto; [lia|]. now rewrite Hs.
Qed.

(** On the sorted keys the resolver always returns. *)
Lemma _get_last_version_sorted (l : list string) (x : string) :
  (_get_last_version (sorted l) x = Ok None /\ forall v, In v l -> str_lt x v) \/
  (exists e,
      _get_last_version (sorted l) x = Ok (Some e) /\ In e l /\ str_le e x /\
      forall e', In e' l -> str_le e' x -> str_le e' e).
Proof.
  destruct (_get_last_version_cases (sorted l) x (sorted_ascending l))
    as [[Hr Hall] | (e & Hr & Hin & Hle & Hmax)].
  - left. split; [exact Hr|]. intros v Hv. apply Hall. now apply sorted_In.
  - right. exists e. split; [exact Hr|]. split; [now apply sorted_In|].
    split; [exact Hle|]. intros e' He'. apply Hmax. now apply sorted_In.
Qed.

(** ** Dictionaries *)

Section DictFacts.
Context {V : Type}.
Implicit Types (d e : dict V) (k : string) (v : V).

Lemma dict_get_set_eq d k v : dict_get (dict_set d k v) k = Some v.
Proof.
  induction d as [|[k' v'] d IH]; simpl.
  - now rewrite String.eqb_refl.
  - destruct (String.eqb k k') eqn:E; simpl.
    + now rewrite String.eqb_refl.
    + now rewrite E.
Qed.

Lemma dict_get_set_neq d k k' v :
  k' <> k -> dict_get (dict_set d k v) k' = dict_get d k'.
Proof.
  intros Hne. induction d as [|[k0 v0] d IH]; simpl.
  - apply String.eqb_neq in Hne. now rewrite Hne.
  - destruct (String.eqb k k0) eqn:E; simpl.
    + apply String.eqb_eq in E. subst k0.
      apply String.eqb_neq in Hne. now rewrite Hne.
    + destruct (String.eqb k' k0); auto.
Qed.

Lemma dict_set_same d k v : dict_get d k = Some v -> dict_set d k v = d.
Proof.
  induction d as [|[k' v'] d IH]; simpl; [discriminate|].
  destruct (String.eqb k k') eqn:E.
  - apply String.eqb_eq in E. now intros [= ->]; subst.
  - intros H. now rewrite IH.
Qed.

Lemma dict_set_set d k v v' :
  dict_set (dict_set d k v) k v' = dict_set d k v'.
Proof.
  induction d as [|[k' v0] d IH]; simpl.
  - now rewrite String.eqb_refl.
  - destruct (String.eqb k k') eqn:E; simpl.
    + now rewrite String.eqb_refl.
    + now rewrite E, IH.
Qed.

Lemma dict_set_not_nil d k v : dict_set d k v <> [].
Proof.
  destruct d as [|[k' v'] d]; simpl; [|destruct (String.eqb k k')];
    discriminate.
Qed.

Lemma dict_get_In_keys d k :
  In k (dict_keys d) <-> dict_get d k <> None.
Proof.
  induction d as [|[k' v'] d IH]; simpl.
  - intuition.
  - destruct (String.eqb k k') eqn:E.
    + apply String.eqb_eq in E. subst. intuition discriminate.
    + apply String.eqb_neq in E. rewrite IH. intuition congruence.
Qed.

Lemma dict_item_keys d k :
  In k (dict_keys d) -> exists v, dict_get d k = Some v /\ dict_item d k = Ok v.
Proof.
  intros H. apply dict_get_In_keys in H. unfold dict_item.
  destruct (dict_get d k) as [v|]; [eauto | congruence].
Qed.

Lemma dict_keys_not_nil d : d <> [] -> dict_keys d <> [].
Proof. destruct d; simpl; congruence. Qed.
End DictFacts.

(** ** The dispatch proxy *)

(** What the proxy resolves to for a requested version, read off the
    registry alone. *)
Lemma _run_method_explicit call m function_name v args kwargs :
  _run_method call function_name args (Some v) kwargs m =
  match dict_item (_method_dicts m) function_name with
  | Raise e => (Raise e, m)
  | Ok method_dict =>
      match _get_last_version (sorted (dict_keys method_dict)) v with
      | Raise e => (Raise e, m)
      | Ok None =>
          match _get_first_available_version (sorted (dict_keys method_dict)) with
          | Ok first =>
              (Raise (Exception_ (unavailable_message function_name v first)), m)
          | Raise e => (Raise e, m)
          end
      | Ok (Some rv) =>
          match dict_item method_dict rv with
          | Ok f => call f args kwargs m
          | Raise e => (Raise e, m)
          end
      end
  end.
Proof.
  unfold _run_method, bind, ret, read, lift, raise.
  destruct (dict_item (_method_dicts m) function_name) as [method_dict|e];
    [|reflexivity].
  destruct (_get_last_version (sorted (dict_keys method_dict)) v)
    as [[rv|]|e]; try reflexivity.
  all: try (destruct (dict_item method_dict rv); reflexivity).
  all: destruct (_get_first_available_version (sorted (dict_keys method_dict)));
    reflexivity.
Qed.

Lemma _run_method_omitted call m function_name args kwargs :
  _run_method call function_name args None kwargs m =
  _run_method call function_name args (Some (_version m)) kwargs m.
Proof. reflexivity. Qed.

(** C2.  When the requested version [V] is below every registered version
    of a name, the proxy raises, whatever the implementations do, and the
    text of the exception is the sentence of line 260 with [V] as the
    requested version and the least registered version as the first
    available one; the module is left as it was.  The same holds when the
    version is omitted and the active version is [V]. *)
Theorem proxy_raises_below_first_version
    m function_name method_dict V args kwargs :
  dict_get (_method_dicts m) function_name = Some method_dict ->
  method_dict <> [] ->
  (forall v, In v (dict_keys method_dict) -> str_lt V v) ->
  exists first,
    In first (dict_keys method_dict) /\
    (forall v, In v (dict_keys method_dict) -> str_le first v) /\
    (forall call,
        _run_method call function_name args (Some V) kwargs m =
        (Raise (Exception_
                  ("The method " ++ function_name
                   ++ " is not available at version " ++ V ++ ". "
                   ++ String "010"
                        ("The first available version is " ++ first ++ "."))),
         m)) /\
    (_version m = V ->
     forall call,
       _run_method call function_name args None kwargs m =
       (Raise (Exception_
                 ("The method " ++ function_name
                  ++ " is not available at version " ++ V ++ ". "
                  ++ String "010"
                       ("The first available version is " ++ first ++ "."))),
        m)).
Proof.
  intros Hget Hne Hbelow.
  destruct (_get_first_available_version_sorted (dict_keys method_dict))
    as (first & Hfirst & Hin & Hmin); [now apply dict_keys_not_nil|].
  assert (Hexplicit : forall call,
             _run_method call function_name args (Some V) kwargs m =
             (Raise (Exception_
                       ("The method " ++ function_name
                        ++ " is not available at version " ++ V ++ ". "
                        ++ String "010"
                             ("The first available version is " ++ first
                              ++ "."))),
              m)).
  { intros call. rewrite _run_method_explicit. unfold dict_item at 1.
    rewrite Hget.
    destruct (_get_last_version_sorted (dict_keys method_dict) V)
      as [[-> _] | (e & _ & Hein & Hle & _)].
    - rewrite Hfirst. reflexivity.
    - exfalso. exact (str_lt_not_le V e (Hbelow e Hein) Hle). }
  exists first. repeat split; auto.
  intros HV call. rewrite _run_method_omitted, HV. apply Hexplicit.
Qed.

Lemma proxy_raises_below_first_version_witness :
  exists first,
    In first ["20200601"; "20200721"] /\
    (forall v, In v ["20200601"; "20200721"] -> str_le first v) /\
    (forall call,
        _run_method call "some_method" [VInt 1] (Some "20200501") []
          (exec (set_version "20200501") pm) =
        (Raise (Exception_
                  ("The method " ++ "some_method"
                   ++ " is not available at version " ++ "20200501" ++ ". "
                   ++ String "010"
                        ("The first available version is " ++ first ++ "."))),
         exec (set_version "20200501") pm)) /\
    (_version (exec (set_version "20200501") pm) = "20200501" ->
     forall call,
       _run_method call "some_method" [VInt 1] None []
         (exec (set_version "20200501") pm) =
       (Raise (Exception_
                 ("The method " ++ "some_method"
                  ++ " is not available at version " ++ "20200501" ++ ". "
                  ++ String "010"
                       ("The first available version is " ++ first ++ "."))),
        exec (set_version "20200501") pm)).
Proof.
  apply (proxy_raises_below_first_version
           (exec (set_version "20200501") pm) "some_method"
           [("20200601", _some_method_20200601);
            ("20200721", _some_method_20200721)]
           "20200501" [VInt 1] []).
  - vm_compute. reflexivity.
  - discriminate.
  - intros v [<- | [<- | []]]; vm_compute; reflexivity.
Defined.



Lemma _run_method_effective call m function_name version args kwargs :
  _run_method call function_name args version kwargs m =
  _run_method call function_name args
    (Some match version with Some v => v | None => _version m end) kwargs m.
Proof. destruct version; [reflexivity | apply _run_method_omitted]. Qed.

(** C5.  A call of the proxy does nothing but forward.  With [v] the
    version given, or the active version when none is given: if the name
    has a version not after [v], the call is the call of the
    implementation registered at the greatest such version, with the same
    positional and keyword arguments, on the module as it stands, and its
    result and module are what that call yields; if it has none, the proxy
    raises and the module is untouched.  So the proxy changes nothing that
    the implementation does not change. *)
Theorem proxy_call_only_forwards call m function_name version args kwargs :
  let v := match version with Some v => v | None => _version m end in
  (forall method_dict,
      dict_get (_method_dicts m) function_name = Some method_dict ->
      (exists k, In k (dict_keys method_dict) /\ str_le k v) ->
      exists e f,
        In e (dict_keys method_dict) /\ str_le e v /\
        (forall e', In e' (dict_keys method_dict) -> str_le e' v ->
                    str_le e' e) /\
        dict_get method_dict e = Some f /\
        _run_method call function_name args version kwargs m
        = call f args kwargs m) /\
  (forall method_dict,
      dict_get (_method_dicts m) function_name = Some method_dict ->
      (forall k, In k (dict_keys method_dict) -> str_lt v k) ->
      exists e,
        _run_method call function_name args version kwargs m = (Raise e, m)) /\
  ((forall f, snd (call f args kwargs m) = m) ->
   snd (_run_method call function_name args version kwargs m) = m).
Proof.
  intros v.
  assert (Hforward : forall method_dict,
    dict_get (_method_dicts m) function_name = Some method_dict ->
    (exists k, In k (dict_keys method_dict) /\ str_le k v) ->
    exists e f,
      In e (dict_keys method_dict) /\ str_le e v /\
      (forall e', In e' (dict_keys method_dict) -> str_le e' v ->
                  str_le e' e) /\
      dict_get method_dict e = Some f /\
      _run_method call function_name args version kwargs m
      = call f args kwargs m).
  { intros method_dict Hmd (k & Hk & Hkv).
    destruct (_get_last_version_sorted (dict_keys method_dict) v)
      as [[_ Hall] | (e & Hr & Hin & Hle & Hmax)].
    - exfalso. exact (str_lt_not_le v k (Hall k Hk) Hkv).
    - destruct (dict_item_keys method_dict e Hin) as (f & Hf & _).
      exists e, f. repeat split; auto.
      rewrite _run_method_effective, _run_method_explicit. fold v.
      unfold dict_item. now rewrite Hmd, Hr, Hf. }
  assert (Hraise : forall method_dict,
    dict_get (_method_dicts m) function_name = Some method_dict ->
    (forall k, In k (dict_keys method_dict) -> str_lt v k) ->
    exists e,
      _run_method call function_name args version kwargs m = (Raise e, m)).
  { intros method_dict Hmd Hbelow.
    rewrite _run_method_effective, _run_method_explicit. fold v.
    unfold dict_item. rewrite Hmd.
    destruct (_get_last_version_sorted (dict_keys method_dict) v)
      as [[-> _] | (e & _ & Hin & Hle & _)].
    - destruct (_get_first_available_version (sorted (dict_keys method_dict)));
        eexists; reflexivity.
    - exfalso. exact (str_lt_not_le v e (Hbelow e Hin) Hle). }
  split; [exact Hforward|]. split; [exact Hraise|].
  intros Hframe.
  destruct (dict_get (_method_dicts m) function_name) as [method_dict|] eqn:Hmd.
  - destruct (_get_last_version_sorted (dict_keys method_dict) v)
      as [[_ Hall] | (e & _ & Hin & Hle & _)].
    + destruct (Hraise method_dict eq_refl Hall) as (e & ->). reflexivity.
    + destruct (Hforward method_dict eq_refl) as (e' & f & _ & _ & _ & _ & ->);
        [eauto|]. apply Hframe.
  - rewrite _run_method_effective, _run_method_explicit. unfold dict_item.
    now rewrite Hmd.
Qed.

Lemma proxy_call_only_forwards_witness :
  exists e f,
    In e ["20200601"; "20200721"] /\ str_le e (_version pm) /\
    (forall e', In e' ["20200601"; "20200721"] -> str_le e' (_version pm) ->
                str_le e' e) /\
    dict_get [("20200601", _some_method_20200601);
              ("20200721", _some_method_20200721)] e = Some f /\
    _run_method names_call "some_method" [VInt 1] None [("d", VInt 4)] pm
    = names_call f [VInt 1] [("d", VInt 4)] pm.
Proof.
  apply (proj1 (proxy_call_only_forwards names_call pm "some_method" None
                  [VInt 1] [("d", VInt 4)])
           [("20200601", _some_method_20200601);
            ("20200721", _some_method_20200721)]).
  - vm_compute. reflexivity.
  - exists "20200601". split; [left; reflexivity | reflexivity].
Defined.

Example pm_dispatch_active :
  fst (_run_method names_call "some_method" [] None [] pm)
  = Ok (VStr "_some_method_20200721").
Proof. vm_compute. reflexivity. Qed.

Example pm_dispatch_explicit :
  fst (_run_method names_call "some_method" [] (Some "20200615") [] pm)
  = Ok (VStr "_some_method_20200601").
Proof. vm_compute. reflexivity. Qed.

(** ** [dict.update] applied twice *)

Section DictUpdate.
Context {V : Type}.
Implicit Types (d e : dict V) (k : string) (v : V).

Lemma dict_update_cons d k v e :
  dict_update d ((k, v) :: e) = dict_update (dict_set d k v) e.
Proof. reflexivity. Qed.

Lemma dict_set_comm d k k' v v' :
  k <> k' -> dict_get d k <> None ->
  dict_set (dict_set d k v) k' v' = dict_set (dict_set d k' v') k v.
Proof.
  intros Hne. induction d as [|[k0 v0] d IH]; simpl; [congruence|].
  destruct (String.eqb k k0) eqn:E.
  - intros _. apply String.eqb_eq in E. subst k0.
    assert (E' : String.eqb k' k = false) by (apply String.eqb_neq; congruence).
    simpl. rewrite E'. simpl. now rewrite String.eqb_refl.
  - intros Hin. destruct (String.eqb k' k0) eqn:E'; simpl; rewrite ?E, ?E'.
    + apply String.eqb_eq in E'. subst k0. simpl. now rewrite E.
    + simpl. now rewrite IH.
Qed.

Lemma dict_get_update_mem d e k :
  dict_get d k <> None -> dict_get (dict_update d e) k <> None.
Proof.
  revert d. induction e as [|[k' v'] e IH]; intros d Hin; [exact Hin|].
  rewrite dict_update_cons. apply IH.
  destruct (string_dec k k') as [->|Hne].
  - rewrite dict_get_set_eq. discriminate.
  - now rewrite dict_get_set_neq.
Qed.

Lemma dict_get_update_other d e k :
  ~ In k (dict_keys e) -> dict_get (dict_update d e) k = dict_get d k.
Proof.
  revert d. induction e as [|[k' v'] e IH]; intros d Hnot; [reflexivity|].
  rewrite dict_update_cons, IH by (simpl in Hnot; tauto).
  apply dict_get_set_neq. simpl in Hnot. intros ->. tauto.
Qed.

(** A binding written before the update, to a key that is present, is
    either overwritten by the update or commutes with it. *)
Lemma dict_update_after_set d e k v :
  dict_get d k <> None ->
  dict_update (dict_set d k v) e =
  if in_dec string_dec k (dict_keys e)
  then dict_update d e
  else dict_set (dict_update d e) k v.
Proof.
  revert d. induction e as [|[k' v'] e IH]; intros d Hin.
  - reflexivity.
  - rewrite !dict_update_cons.
    destruct (string_dec k' k) as [->|Hne].
    + rewrite dict_set_set.
      destruct (in_dec string_dec k (dict_keys ((k, v') :: e))) as [_|Hn];
        [reflexivity | exfalso; apply Hn; now left].
    + rewrite (dict_set_comm d k k' v v') by congruence.
      rewrite IH by (rewrite dict_get_set_neq; congruence).
      destruct (in_dec string_dec k (dict_keys e)) as [Hi|Hi];
        destruct (in_dec string_dec k (dict_keys ((k', v') :: e)))
          as [Hj|Hj]; simpl in Hj; try reflexivity; tauto.
Qed.

Lemma dict_update_idempotent d e :
  dict_update (dict_update d e) e = dict_update d e.
Proof.
  revert d. induction e as [|[k v] e IH]; intros d; [reflexivity|].
  rewrite !dict_update_cons.
  set (d1 := dict_set d k v).
  assert (Hk : dict_get (dict_update d1 e) k <> None).
  { apply dict_get_update_mem. unfold d1. rewrite dict_get_set_eq.
    discriminate. }
  rewrite (dict_update_after_set _ e k v Hk).
  destruct (in_dec string_dec k (dict_keys e)) as [Hi|Hi].
  - apply IH.
  - rewrite IH. apply dict_set_same.
    rewrite dict_get_update_other by assumption.
    unfold d1. apply dict_get_set_eq.
Qed.
End DictUpdate.

(** ** Refreshing the proxy metadata *)

Lemma _update_module_vc_unfold function_name version m :
  _update_module_vc function_name version m =
  match dict_get (_method_dicts m) function_name with
  | None => (Raise (KeyError function_name), m)
  | Some method_dict =>
      match dict_get (attrs m) function_name with
      | None => (Raise (AttributeError function_name), m)
      | Some w =>
          match refreshed method_dict function_name version w with
          | Ok w' =>
              (Ok tt, with_attrs m (dict_set (attrs m) function_name w'))
          | Raise e => (Raise e, m)
          end
      end
  end.
Proof.
  unfold _update_module_vc, refreshed, bind, ret, read, lift, getattr, setattr,
    write, dict_item, rbind.
  destruct (dict_get (_method_dicts m) function_name) as [method_dict|];
    [|reflexivity].
  destruct (dict_get (attrs m) function_name) as [w|]; [|reflexivity].
  destruct (_get_last_version (sorted (dict_keys method_dict)) version)
    as [[fv|]|e]; try reflexivity.
  - destruct (dict_get method_dict fv); reflexivity.
  - destruct (_get_first_available_version (sorted (dict_keys method_dict)));
      reflexivity.
Qed.

Lemma refreshed_idempotent method_dict function_name version w w' :
  refreshed method_dict function_name version w = Ok w' ->
  refreshed method_dict function_name version w' = Ok w'.
Proof.
  unfold refreshed, rbind, dict_item.
  destruct (_get_last_version (sorted (dict_keys method_dict)) version)
    as [[fv|]|e]; try discriminate.
  - destruct (dict_get method_dict fv) as [f|]; [|discriminate].
    intros [= <-]. f_equal.
    unfold rename_proxy, update_wrapper. simpl.
    now rewrite dict_update_idempotent.
  - destruct (_get_first_available_version (sorted (dict_keys method_dict)))
      as [first|]; [|discriminate].
    intros [= <-]. reflexivity.
Qed.

(** A refresh succeeds as soon as the name has a version. *)
Lemma refreshed_ok method_dict function_name version w :
  method_dict <> [] ->
  exists w', refreshed method_dict function_name version w = Ok w'.
Proof.
  intros Hne. unfold refreshed, rbind.
  destruct (_get_last_version_sorted (dict_keys method_dict) version)
    as [[-> _] | (e & -> & Hin & _)].
  - destruct (_get_first_available_version_sorted (dict_keys method_dict))
      as (first & -> & _); [now apply dict_keys_not_nil|].
    eexists. reflexivity.
  - destruct (dict_item_keys method_dict e Hin) as (f & _ & ->).
    eexists. reflexivity.
Qed.

Lemma with_attrs_same m : with_attrs m (attrs m) = m.
Proof. now destruct m. Qed.

Lemma with_version_same m : with_version m (_version m) = m.
Proof. now destruct m. Qed.

(** What a refresh of one name leaves alone. *)
Lemma _update_module_vc_frame function_name version m r m' :
  _update_module_vc function_name version m = (r, m') ->
  _version m' = _version m /\
  _method_dicts m' = _method_dicts m /\
  _tool_dicts m' = _tool_dicts m /\
  _module_display_version m' = _module_display_version m /\
  (forall k, k <> function_name -> dict_get (attrs m') k = dict_get (attrs m) k) /\
  (forall k, dict_get (attrs m) k <> None -> dict_get (attrs m') k <> None).
Proof.
  rewrite _update_module_vc_unfold.
  destruct (dict_get (_method_dicts m) function_name) as [method_dict|];
    [|intros [= <- <-]; repeat split; auto].
  destruct (dict_get (attrs m) function_name) as [w|];
    [|intros [= <- <-]; repeat split; auto].
  destruct (refreshed method_dict function_name version w) as [w'|e];
    intros [= <- <-]; repeat split; auto; simpl.
  - intros k Hk. now apply dict_get_set_neq.
  - intros k Hk. destruct (string_dec k function_name) as [->|Hne].
    + rewrite dict_get_set_eq. discriminate.
    + now rewrite dict_get_set_neq.
Qed.

Lemma _update_module_vc_raise function_name version m e m' :
  _update_module_vc function_name version m = (Raise e, m') -> m' = m.
Proof.
  rewrite _update_module_vc_unfold.
  destruct (dict_get (_method_dicts m) function_name) as [method_dict|];
    [|now intros [= <- <-]].
  destruct (dict_get (attrs m) function_name) as [w|]; [|now intros [= <- <-]].
  destruct (refreshed method_dict function_name version w) as [w'|e'];
    [discriminate | now intros [= <- <-]].
Qed.

Lemma fresh_update_module_vc function_name version m :
  fresh function_name version m ->
  _update_module_vc function_name version m = (Ok tt, m).
Proof.
  intros (method_dict & w & Hmd & Hw & Hr).
  rewrite _update_module_vc_unfold, Hmd, Hw, Hr.
  now rewrite (dict_set_same _ _ _ Hw), with_attrs_same.
Qed.

Lemma _update_module_vc_fresh function_name version m m' :
  _update_module_vc function_name version m = (Ok tt, m') ->
  fresh function_name version m'.
Proof.
  rewrite _update_module_vc_unfold.
  destruct (dict_get (_method_dicts m) function_name) as [method_dict|] eqn:Hmd;
    [|discriminate].
  destruct (dict_get (attrs m) function_name) as [w|]; [|discriminate].
  destruct (refreshed method_dict function_name version w) as [w'|e] eqn:Hr;
    [|discriminate].
  intros [= <-]. exists method_dict, w'. simpl.
  split; [exact Hmd|]. split; [apply dict_get_set_eq|].
  eapply refreshed_idempotent; eauto.
Qed.

Lemma _update_module_vc_keeps_fresh function_name function_name' version m r m' :
  fresh function_name version m ->
  _update_module_vc function_name' version m = (r, m') ->
  fresh function_name version m'.
Proof.
  intros Hfresh Hstep.
  destruct (string_dec function_name' function_name) as [->|Hne].
  - rewrite (fresh_update_module_vc _ _ _ Hfresh) in Hstep.
    now injection Hstep as <- <-.
  - destruct Hfresh as (method_dict & w & Hmd & Hw & Hr).
    destruct (_update_module_vc_frame _ _ _ _ _ Hstep)
      as (_ & Hreg & _ & _ & Hother & _).
    exists method_dict, w. rewrite Hreg, Hother by congruence. auto.
Qed.

Lemma refresh_all_cons version k names m :
  refresh_all version (k :: names) m =
  match _update_module_vc k version m with
  | (Ok _, m') => refresh_all version names m'
  | (Raise e, m') => (Raise e, m')
  end.
Proof. reflexivity. Qed.

Lemma refresh_all_frame version names m r m' :
  refresh_all version names m = (r, m') ->
  _version m' = _version m /\ _method_dicts m' = _method_dicts m /\
  _tool_dicts m' = _tool_dicts m /\
  _module_display_version m' = _module_display_version m /\
  (forall k, dict_get (attrs m) k <> None -> dict_get (attrs m') k <> None).
Proof.
  revert m. induction names as [|k names IH]; intros m.
  - intros [= <- <-]. auto.
  - rewrite refresh_all_cons.
    destruct (_update_module_vc k version m) as [[[]|e] m1] eqn:Hstep.
    + intros Hrest. apply IH in Hrest as (Hv & Hmd & Ht & Hd & Ha).
      apply _update_module_vc_frame in Hstep as (Hv1 & Hmd1 & Ht1 & Hd1 & _ & Ha1).
      repeat split; try congruence. auto.
    + intros [= <- <-].
      apply _update_module_vc_frame in Hstep as (Hv1 & Hmd1 & Ht1 & Hd1 & _ & Ha1).
      auto.
Qed.

Lemma refresh_all_keeps_fresh version names function_name m r m' :
  fresh function_name version m ->
  refresh_all version names m = (r, m') ->
  fresh function_name version m'.
Proof.
  revert m. induction names as [|k names IH]; intros m Hfresh.
  - now intros [= <- <-].
  - rewrite refresh_all_cons.
    destruct (_update_module_vc k version m) as [[[]|e] m1] eqn:Hstep.
    + apply IH. eapply _update_module_vc_keeps_fresh; eauto.
    + intros [= <- <-]. eapply _update_module_vc_keeps_fresh; eauto.
Qed.

(** Running the loop again from where it stopped changes nothing and ends
    the same way. *)
Lemma refresh_all_again version names m r m' :
  refresh_all version names m = (r, m') ->
  refresh_all version names m' = (r, m').
Proof.
  revert m. induction names as [|k names IH]; intros m.
  - now intros [= <- <-].
  - rewrite refresh_all_cons.
    destruct (_update_module_vc k version m) as [[[]|e] m1] eqn:Hstep.
    + intros Hrest. rewrite refresh_all_cons.
      assert (Hfresh : fresh k version m').
      { eapply refresh_all_keeps_fresh; [|exact Hrest].
        eapply _update_module_vc_fresh; eauto. }
      rewrite (fresh_update_module_vc _ _ _ Hfresh). eauto.
    + intros [= <- <-].
      apply _update_module_vc_raise in Hstep as Hm. subst m1.
      now rewrite refresh_all_cons, Hstep.
Qed.

Lemma set_module_version_unfold version m :
  set_module_version version m =
  refresh_all version (dict_keys (_method_dicts m)) (with_version m version).
Proof. reflexivity. Qed.

(** ** Registration *)

Lemma well_formed_frame m m' :
  _method_dicts m' = _method_dicts m ->
  (forall k, dict_get (attrs m) k <> None -> dict_get (attrs m') k <> None) ->
  well_formed m -> well_formed m'.
Proof.
  intros Hreg Hattrs Hwf function_name method_dict Hget.
  rewrite Hreg in Hget. destruct (Hwf _ _ Hget) as (Hne & w & Hw).
  split; [exact Hne|].
  specialize (Hattrs function_name). rewrite Hw in Hattrs.
  destruct (dict_get (attrs m') function_name) as [w'|]; [eauto|].
  exfalso. apply Hattrs; [discriminate | reflexivity].
Qed.

Lemma refresh_all_ok version names m :
  well_formed m ->
  (forall k, In k names -> dict_get (_method_dicts m) k <> None) ->
  exists m', refresh_all version names m = (Ok tt, m') /\ well_formed m'.
Proof.
  revert m. induction names as [|k names IH]; intros m Hwf Hnames.
  - exists m. split; [reflexivity | exact Hwf].
  - rewrite refresh_all_cons.
    destruct (dict_get (_method_dicts m) k) as [method_dict|] eqn:Hmd.
    2: { exfalso. apply (Hnames k); [now left | exact Hmd]. }
    destruct (Hwf _ _ Hmd) as (Hne & w & Hw).
    destruct (refreshed_ok method_dict k version w Hne) as [w' Hr].
    destruct (_update_module_vc k version m) as [r m1] eqn:Hstep.
    pose proof (_update_module_vc_frame _ _ _ _ _ Hstep)
      as (_ & Hreg & _ & _ & _ & Hattrs).
    rewrite _update_module_vc_unfold, Hmd, Hw, Hr in Hstep.
    injection Hstep as <- Hm1.
    apply IH.
    + now apply (well_formed_frame m).
    + intros k' Hk'. rewrite Hreg. apply Hnames. now right.
Qed.

Lemma set_module_version_ok version m :
  well_formed m ->
  exists m',
    set_module_version version m = (Ok tt, m') /\ well_formed m' /\
    _version m' = version.
Proof.
  intros Hwf. rewrite set_module_version_unfold.
  destruct (refresh_all_ok version (dict_keys (_method_dicts m))
              (with_version m version)) as (m' & Hrun & Hwf').
  - now apply (well_formed_frame m).
  - intros k Hk. now apply dict_get_In_keys.
  - exists m'. split; [exact Hrun|]. split; [exact Hwf'|].
    now apply refresh_all_frame in Hrun as (-> & _).
Qed.

Lemma _module_vc_no_underscore func m :
  rfind "_" (__name__ func) = None ->
  _module_vc func m = (Raise (ValueError "substring not found"), m).
Proof.
  intros H. unfold _module_vc, bind, lift, rindex. now rewrite H.
Qed.

(** With an underscore in the function name, [_module_vc] runs to its end:
    the function is stored under the base name and the raw suffix, and
    the base name has a proxy. *)
Lemma _module_vc_ok func m idx :
  rfind "_" (__name__ func) = Some idx ->
  let function_name := base_name (__name__ func) idx in
  let version := version_suffix (__name__ func) idx in
  let method_dict :=
    match dict_get (_method_dicts m) function_name with
    | Some method_dict => method_dict
    | None => []
    end in
  exists m',
    _module_vc func m = (Ok func, m') /\
    _method_dicts m' =
      dict_set (_method_dicts m) function_name
        (dict_set method_dict version func) /\
    _version m' = _version m /\
    _tool_dicts m' = _tool_dicts m /\
    _module_display_version m' = _module_display_version m /\
    dict_get (attrs m') function_name <> None /\
    (forall k, dict_get (attrs m) k <> None -> dict_get (attrs m') k <> None).
Proof.
  intros Hidx function_name version method_dict.
  set (md' := dict_set method_dict version func).
  set (m4 := with_attrs
               (with_method_dicts m (dict_set (_method_dicts m) function_name md'))
               (dict_set (attrs m) function_name
                  (update_wrapper (new_run_method function_name) func))).
  assert (Hprefix :
    _module_vc func m =
    match _update_module_vc function_name (_version m) m4 with
    | (Ok _, m') => (Ok func, m')
    | (Raise e, m') => (Raise e, m')
    end).
  { unfold _module_vc, bind, lift, rindex. rewrite Hidx.
    fold (base_name (__name__ func) idx). fold function_name.
    fold (version_suffix (__name__ func) idx). fold version.
    unfold read, write, ret, setattr, dict_mem, dict_item, m4, md', method_dict.
    destruct (dict_get (_method_dicts m) function_name) as [md0|] eqn:Hmd;
      simpl; rewrite ?Hmd, ?dict_get_set_eq, ?dict_set_set; reflexivity. }
  destruct (refreshed_ok md' function_name (_version m)
              (update_wrapper (new_run_method function_name) func))
    as [w' Hr]; [apply dict_set_not_nil|].
  rewrite Hprefix, _update_module_vc_unfold. simpl.
  rewrite !dict_get_set_eq, Hr.
  eexists. split; [reflexivity|]. simpl. repeat split; auto.
  - rewrite dict_get_set_eq. discriminate.
  - intros k Hk. destruct (string_dec k function_name) as [->|Hne].
    + rewrite dict_get_set_eq. discriminate.
    + now rewrite !dict_get_set_neq.
Qed.

Lemma register_unfold default_version display m0 :
  register default_version display m0 =
  (Ok tt,
   {| _version := default_version;
      _method_dicts := [];
      _tool_dicts := [];
      _module_display_version := display;
      attrs := attrs m0 |}).
Proof. reflexivity. Qed.

Lemma _module_vt_frame description helps types defaults return_routine func m :
  let m' := snd (_module_vt description helps types defaults return_routine
                   func m) in
  _version m' = _version m /\ _method_dicts m' = _method_dicts m /\
  attrs m' = attrs m.
Proof.
  unfold _module_vt, bind, lift, rindex, read, write, ret, dict_mem, dict_item.
  destruct (rfind "_" (__name__ func)) as [idx|]; simpl; [|auto].
  destruct (dict_get (_tool_dicts m) (slice (__name__ func) 1 idx)) eqn:Hd;
    simpl; rewrite ?Hd, ?dict_get_set_eq; simpl; auto.
Qed.

Lemma well_formed_vc func m : well_formed m -> well_formed (snd (vc func m)).
Proof.
  intros Hwf. unfold vc.
  destruct (rfind "_" (__name__ func)) as [idx|] eqn:Hidx.
  2: { now rewrite _module_vc_no_underscore. }
  destruct (_module_vc_ok func m idx Hidx)
    as (m' & -> & Hreg & _ & _ & _ & Hproxy & Hattrs).
  simpl. intros function_name method_dict. rewrite Hreg.
  destruct (string_dec function_name (base_name (__name__ func) idx))
    as [->|Hne].
  - rewrite dict_get_set_eq. intros [= <-].
    split; [apply dict_set_not_nil|].
    destruct (dict_get (attrs m') (base_name (__name__ func) idx)) as [w|];
      [eauto | congruence].
  - rewrite dict_get_set_neq by assumption. intros Hget.
    destruct (Hwf _ _ Hget) as (Hne' & w & Hw). split; [exact Hne'|].
    specialize (Hattrs function_name). rewrite Hw in Hattrs.
    destruct (dict_get (attrs m') function_name) as [w'|]; [eauto|].
    exfalso. apply Hattrs; [discriminate | reflexivity].
Qed.

(** Registered modules are well formed. *)
Lemma registered_well_formed m : registered m -> well_formed m.
Proof.
  induction 1 as [m0 dv display Hm0 | m func _ IH
                 | m description helps types defaults rr func _ IH
                 | m version _ IH].
  - rewrite register_unfold. simpl. intros function_name method_dict.
    simpl. discriminate.
  - now apply well_formed_vc.
  - unfold vt.
    destruct (_module_vt_frame description helps types defaults rr func m)
      as (_ & Hreg & Hattrs).
    apply (well_formed_frame m); auto. intros k. now rewrite Hattrs.
  - unfold set_version.
    destruct (set_module_version_ok version m IH) as (m' & -> & Hwf & _).
    exact Hwf.
Qed.

(** The example module is a registered module. *)
Lemma registered_pm : registered pm.
Proof.
  unfold pm, exec.
  apply registered_vt; [|vm_compute; reflexivity].
  do 4 (apply registered_vc; [|vm_compute; reflexivity]).
  apply registered_register. reflexivity.
Qed.

(** C8.  Setting the same version a second time ends as the first call
    did and leaves the module exactly as the first call left it: the
    active version and the name, qualified name and documentation (indeed
    every attribute) of every proxy.  On a registered module the call
    succeeds. *)
Theorem set_version_idempotent version m :
  set_version version (snd (set_version version m)) = set_version version m /\
  (forall function_name,
      dict_get (attrs (snd (set_version version (snd (set_version version m)))))
        function_name
      = dict_get (attrs (snd (set_version version m))) function_name) /\
  (registered m -> fst (set_version version m) = Ok tt).
Proof.
  assert (Hagain :
    set_version version (snd (set_version version m)) = set_version version m).
  { unfold set_version. rewrite (set_module_version_unfold version m).
    destruct (refresh_all version (dict_keys (_method_dicts m))
                (with_version m version)) as [r m'] eqn:Hrun.
    simpl. rewrite set_module_version_unfold.
    pose proof (refresh_all_frame _ _ _ _ _ Hrun) as (Hv & Hreg & _).
    simpl in Hv, Hreg.
    assert (Hsame : with_version m' version = m')
      by (rewrite <- Hv; apply with_version_same).
    rewrite Hreg, Hsame. eapply refresh_all_again; eauto. }
  split; [exact Hagain|]. split.
  - intros function_name. now rewrite Hagain.
  - intros Hreg. unfold set_version.
    destruct (set_module_version_ok version m (registered_well_formed m Hreg))
      as (m' & -> & _). reflexivity.
Qed.

Lemma set_version_idempotent_witness :
  fst (set_version "20200615" pm) = Ok tt.
Proof.
  apply (set_version_idempotent "20200615" pm).
  apply registered_pm.
Defined.



(** C3, as the code has it.  Registration does not look at the version
    suffix: whenever the function name has an underscore, and the base
    name is not one of the reserved attributes of the module, [vc]
    succeeds and stores the function under the base name and whatever
    follows the last underscore; when the name has no underscore at all it
    raises and leaves the module alone. *)
Theorem registration_stores_any_suffix func m :
  (rfind "_" (__name__ func) = None ->
   vc func m = (Raise (ValueError "substring not found"), m)) /\
  (forall idx,
      rfind "_" (__name__ func) = Some idx ->
      reserved (base_name (__name__ func) idx) = false ->
      exists m' method_dict,
        vc func m = (Ok func, m') /\
        dict_get (_method_dicts m') (base_name (__name__ func) idx)
        = Some method_dict /\
        dict_get method_dict (version_suffix (__name__ func) idx) = Some func).
Proof.
  split.
  - apply _module_vc_no_underscore.
  - intros idx Hidx _.
    destruct (_module_vc_ok func m idx Hidx) as (m' & Hrun & Hreg & _).
    exists m'. eexists. split; [exact Hrun|]. rewrite Hreg.
    split; [apply dict_get_set_eq | apply dict_get_set_eq].
Qed.

Lemma registration_stores_any_suffix_witness :
  exists m' method_dict,
    vc (def "_foo_2020xx01" "" [] 5) pm = (Ok (def "_foo_2020xx01" "" [] 5), m') /\
    dict_get (_method_dicts m') "foo" = Some method_dict /\
    dict_get method_dict "2020xx01" = Some (def "_foo_2020xx01" "" [] 5).
Proof.
  apply (proj2 (registration_stores_any_suffix (def "_foo_2020xx01" "" [] 5) pm)
           4).
  - reflexivity.
  - reflexivity.
Defined.

(** C3 as stated fails: the suffix [2020xx01] is no version key and the
    comparison function raises on it, yet registering [_foo_2020xx01]
    succeeds and stores the function under that key. *)
Lemma registration_accepts_malformed_version :
  ~ version_key "2020xx01" /\
  _compare_version "2020xx01" "20200101"
  = Raise (ValueError "invalid literal for int() with base 10") /\
  fst (vc (def "_foo_2020xx01" "" [] 5) pm) = Ok (def "_foo_2020xx01" "" [] 5) /\
  dict_get (_method_dicts (snd (vc (def "_foo_2020xx01" "" [] 5) pm))) "foo"
  = Some [("2020xx01", def "_foo_2020xx01" "" [] 5)].
Proof.
  split; [|split; [|split]]; try (vm_compute; reflexivity).
  intros [_ H]. vm_compute in H. discriminate.
Qed.

(** ** The generated flags *)

(** C7.  The flag of a signature parameter is optional, and carries a
    default, exactly when [defaults] names the parameter or its signature
    has a default; otherwise it is required and has none; the value is the
    one from [defaults] when there is one, else the signature's. *)
Theorem flag_optional_iff_default helps types defaults param kwargs :
  parameter_kwargs helps types defaults param = Ok kwargs ->
  (kw_required kwargs = false <->
   dict_get defaults (param_name param) <> None \/ param_default param <> None) /\
  (kw_default kwargs <> None <-> kw_required kwargs = false) /\
  (forall d, dict_get defaults (param_name param) = Some d ->
             kw_default kwargs = Some d) /\
  (dict_get defaults (param_name param) = None ->
   kw_default kwargs = param_default param).
Proof.
  unfold parameter_kwargs, rbind.
  destruct (dict_get defaults (param_name param)) as [d|];
    [|destruct (param_default param) as [d|]];
    (destruct (dict_get types (param_name param)) as [t|];
     [|destruct (param_annotation param) as [|origin args|t];
       [|destruct (value_eq_dec origin (VType "list"));
         [destruct (nth_error args 0)|]|]]);
    try discriminate; intros [= <-]; simpl;
    repeat split; try congruence; try discriminate; intuition congruence.
Qed.

Lemma flag_optional_iff_default_witness :
  (kw_required
     {| kw_help := "_"; kw_default := Some (VInt 7); kw_required := false;
        kw_type := Some (VType "int"); kw_nargs := None |} = false <->
   dict_get [("n", VInt 7)] "n" <> None \/ Some (VInt 3) <> None) /\
  (kw_default
     {| kw_help := "_"; kw_default := Some (VInt 7); kw_required := false;
        kw_type := Some (VType "int"); kw_nargs := None |} <> None <->
   kw_required
     {| kw_help := "_"; kw_default := Some (VInt 7); kw_required := false;
        kw_type := Some (VType "int"); kw_nargs := None |} = false) /\
  (forall d, dict_get [("n", VInt 7)] "n" = Some d ->
             kw_default
               {| kw_help := "_"; kw_default := Some (VInt 7);
                  kw_required := false; kw_type := Some (VType "int");
                  kw_nargs := None |} = Some d) /\
  (dict_get [("n", VInt 7)] "n" = None ->
   kw_default
     {| kw_help := "_"; kw_default := Some (VInt 7); kw_required := false;
        kw_type := Some (VType "int"); kw_nargs := None |} = Some (VInt 3)).
Proof.
  apply (flag_optional_iff_default [] [] [("n", VInt 7)]
           {| param_name := "n"; param_default := Some (VInt 3);
              param_annotation := Plain (VType "int") |}).
  reflexivity.
Defined.

(** ** The subcommands of the generated grammar *)

Lemma resolver_applicable (tool_dict : dict tool) (version : string) :
  (_get_last_version (sorted (dict_keys tool_dict)) version = Ok None /\
   applicable tool_dict version = false) \/
  (exists rv t,
      _get_last_version (sorted (dict_keys tool_dict)) version = Ok (Some rv) /\
      applicable tool_dict version = true /\
      dict_get tool_dict rv = Some t).
Proof.
  destruct (_get_last_version_sorted (dict_keys tool_dict) version)
    as [[Hr Hall] | (rv & Hr & Hin & Hle & _)].
  - left. split; [exact Hr|].
    unfold applicable. destruct (existsb _ _) eqn:Hex; [|reflexivity].
    apply existsb_exists in Hex as (k & Hk & Hle).
    exfalso. exact (str_lt_not_le version k (Hall k Hk) Hle).
  - right. destruct (dict_item_keys tool_dict rv Hin) as (t & Ht & _).
    exists rv, t. split; [exact Hr|]. split; [|exact Ht].
    unfold applicable. apply existsb_exists. exists rv. auto.
Qed.

Section GrammarFacts.
Variable check : subparser -> string -> argument_kwargs -> option exn.

Lemma add_argument_name parser flag kwargs parser' :
  add_argument check parser flag kwargs = Ok parser' ->
  sub_name parser' = sub_name parser.
Proof.
  unfold add_argument. destruct (check parser flag kwargs); [discriminate|].
  now intros [= <-].
Qed.

Lemma add_parameters_name helps types defaults params parser parser' :
  add_parameters check helps types defaults params parser = Ok parser' ->
  sub_name parser' = sub_name parser.
Proof.
  revert parser. induction params as [|param params IH]; intros parser; simpl.
  - now intros [= <-].
  - destruct (parameter_kwargs helps types defaults param) as [kwargs|];
      [simpl|discriminate].
    destruct (add_argument check parser _ kwargs) as [parser1|] eqn:Hadd;
      [simpl|discriminate].
    intros H. apply IH in H. apply add_argument_name in Hadd. congruence.
Qed.

Lemma add_return_parameters_name helps types defaults names parser parser' :
  add_return_parameters check helps types defaults names parser = Ok parser' ->
  sub_name parser' = sub_name parser.
Proof.
  revert parser. induction names as [|name names IH]; intros parser; simpl.
  - now intros [= <-].
  - destruct (return_parameter_kwargs helps types defaults name) as [kwargs|];
      [simpl|discriminate].
    destruct (add_argument check parser _ kwargs) as [parser1|] eqn:Hadd;
      [simpl|discriminate].
    intros H. apply IH in H. apply add_argument_name in Hadd. congruence.
Qed.

Lemma add_tool_name func_name rversion t parser :
  add_tool check func_name rversion t = Ok parser ->
  sub_name parser = func_name.
Proof.
  unfold add_tool.
  destruct (add_parameters check _ _ _ _ _) as [parser1|] eqn:Hparams;
    [simpl|discriminate].
  apply add_parameters_name in Hparams. simpl in Hparams.
  destruct (tool_return_routine t) as [return_routine|].
  - intros H. apply add_return_parameters_name in H. congruence.
  - intros [= <-]. exact Hparams.
Qed.

(** The loop over the tool table: the names it adds, and where an
    exception can come from. *)
Lemma add_tools_spec version items :
  forall subparsers routines,
    (forall subparsers' routines',
        add_tools check version items subparsers routines
        = Ok (subparsers', routines') ->
        map sub_name subparsers' =
        (map sub_name subparsers ++
         map fst (filter (fun item => applicable (snd item) version) items))%list) /\
    (forall e,
        add_tools check version items subparsers routines = Raise e ->
        exists func_name tool_dict rv t,
          In (func_name, tool_dict) items /\
          applicable tool_dict version = true /\
          _get_last_version (sorted (dict_keys tool_dict)) version
          = Ok (Some rv) /\
          dict_get tool_dict rv = Some t /\
          add_tool check func_name rv t = Raise e).
Proof.
  induction items as [|[func_name tool_dict] items IH];
    intros subparsers routines; simpl.
  - split; [|discriminate]. intros ? ? [= <- <-]. now rewrite app_nil_r.
  - destruct (resolver_applicable tool_dict version)
      as [[Hr Happ] | (rv & t & Hr & Happ & Ht)]; rewrite Hr, Happ; simpl.
    + destruct (IH subparsers routines) as [Hok Herr]. split; [exact Hok|].
      intros e He. destruct (Herr e He) as (fn & td & rv & t & Hin & Hrest).
      exists fn, td, rv, t. split; [now right | exact Hrest].
    + unfold dict_item. rewrite Ht. simpl.
      destruct (add_tool check func_name rv t) as [parser|e0] eqn:Htool; simpl.
      * match goal with
        | |- context [add_tools check version items ?s ?r] =>
            destruct (IH s r) as [Hok Herr]
        end.
        split.
        -- intros subparsers' routines' H. rewrite (Hok _ _ H).
           rewrite map_app, <- app_assoc. simpl.
           now rewrite (add_tool_name _ _ _ _ Htool).
        -- intros e He.
           destruct (Herr e He) as (fn & td & rv' & t' & Hin & Hrest).
           exists fn, td, rv', t'. split; [now right | exact Hrest].
      * split; [discriminate|]. intros e [= <-].
        exists func_name, tool_dict, rv, t. repeat split; auto.
Qed.

(** C6.  When the grammar is built, its subcommands are, in order, the
    tool names that have metadata at a version not after the active one;
    the other names are passed over, and an exception can only come from
    building the subcommand of a name that does have such a version. *)
Theorem cli_surface_lists_applicable_tools m :
  (forall parser routines,
      module_main_parser check m = Ok (parser, routines) ->
      map sub_name (parser_subparsers parser) =
      map fst (filter (fun item => applicable (snd item) (_version m))
                 (_tool_dicts m))) /\
  (forall e,
      module_main_parser check m = Raise e ->
      exists func_name tool_dict rv t,
        In (func_name, tool_dict) (_tool_dicts m) /\
        applicable tool_dict (_version m) = true /\
        _get_last_version (sorted (dict_keys tool_dict)) (_version m)
        = Ok (Some rv) /\
        dict_get tool_dict rv = Some t /\
        add_tool check func_name rv t = Raise e).
Proof.
  unfold module_main_parser.
  destruct (add_tools_spec (_version m) (_tool_dicts m) [] []) as [Hok Herr].
  destruct (add_tools check (_version m) (_tool_dicts m) [] [])
    as [[subparsers routines]|e0]; simpl.
  - split; [|discriminate]. intros parser routines' [= <- <-]. simpl.
    apply (Hok _ _ eq_refl).
  - split; [discriminate|]. intros e [= <-]. now apply Herr.
Qed.
End GrammarFacts.

Lemma cli_surface_lists_applicable_tools_witness :
  exists parser routines,
    module_main_parser conflict_error pm = Ok (parser, routines) /\
    map sub_name (parser_subparsers parser) =
    map fst (filter (fun item => applicable (snd item) (_version pm))
               (_tool_dicts pm)).
Proof.
  eexists. eexists. split.
  - vm_compute. reflexivity.
  - eapply (proj1 (cli_surface_lists_applicable_tools conflict_error pm)).
    vm_compute. reflexivity.
Defined.

Example pm_cli_surface :
  option_map (fun built => map sub_name (parser_subparsers (fst built)))
    (match module_main_parser conflict_error pm with
     | Ok built => Some built
     | Raise _ => None
     end)
  = Some ["copy_file"].
Proof. vm_compute. reflexivity. Qed.

Example pm_cli_surface_before_first_tool :
  option_map (fun built => map sub_name (parser_subparsers (fst built)))
    (match module_main_parser conflict_error
             (exec (set_version "20200615") pm) with
     | Ok built => Some built
     | Raise _ => None
     end)
  = Some [].
Proof. vm_compute. reflexivity. Qed.

(** ** Version keys: the string order and the field-wise order *)

Lemma is_digit_range (c : ascii) :
  is_digit c = true -> (0 <= digit_val c <= 9)%Z.
Proof.
  unfold is_digit, digit_val. intros H.
  apply andb_prop in H as [H1 H2].
  apply Nat.leb_le in H1, H2. lia.
Qed.

Lemma is_digit_not_space (c : ascii) : is_digit c = true -> is_space c = false.
Proof.
  unfold is_digit, is_space. intros H.
  apply andb_prop in H as [H1 H2]. apply Nat.leb_le in H1, H2.
  repeat match goal with
         | |- context [(?a <=? ?b)%nat] =>
             destruct (Nat.leb_spec a b); try lia
         | |- context [(?a =? ?b)%nat] =>
             destruct (Nat.eqb_spec a b); try lia
         end; reflexivity.
Qed.

Lemma is_digit_head (c : ascii) (s : string) :
  is_digit c = true ->
  int (String c s) =
  match int_digits (digit_val c) false s with
  | Some z => Ok z
  | None => Raise (ValueError "invalid literal for int() with base 10")
  end.
Proof.
  intros Hd. unfold int. cbn [lstrip]. rewrite (is_digit_not_space c Hd).
  destruct c as [[] [] [] [] [] [] [] []];
    try (vm_compute in Hd; discriminate Hd);
    unfold int_unsigned; rewrite Hd; reflexivity.
Qed.

Lemma int_digits_all_digits (s : string) (acc : Z) :
  all_digits s = true -> int_digits acc false s = Some (decimal acc s).
Proof.
  revert acc. induction s as [|c s IH]; intros acc; cbn [all_digits int_digits decimal].
  - reflexivity.
  - intros H. apply andb_prop in H as [Hc Hs]. rewrite Hc. now apply IH.
Qed.

(** [int] on a non-empty string of digits. *)
Lemma int_all_digits (s : string) :
  s <> EmptyString -> all_digits s = true -> int s = Ok (decimal 0 s).
Proof.
  destruct s as [|c s]; [congruence|]. intros _ H.
  cbn [all_digits] in H. apply andb_prop in H as [Hc Hs].
  rewrite (is_digit_head c s Hc), (int_digits_all_digits s _ Hs).
  reflexivity.
Qed.

Lemma decimal_shift (s : string) (acc : Z) :
  decimal acc s = (acc * 10 ^ Z.of_nat (String.length s) + decimal 0 s)%Z.
Proof.
  revert acc. induction s as [|c s IH]; intros acc; cbn [decimal String.length].
  - simpl. lia.
  - rewrite (IH (10 * acc + digit_val c)%Z), (IH (10 * 0 + digit_val c)%Z).
    rewrite Nat2Z.inj_succ, Z.pow_succ_r by lia. ring.
Qed.

Lemma decimal_bound (s : string) :
  all_digits s = true ->
  (0 <= decimal 0 s < 10 ^ Z.of_nat (String.length s))%Z.
Proof.
  induction s as [|c s IH]; cbn [all_digits decimal String.length].
  - simpl. lia.
  - intros H. apply andb_prop in H as [Hc Hs].
    specialize (IH Hs). apply is_digit_range in Hc.
    rewrite decimal_shift, Nat2Z.inj_succ, Z.pow_succ_r by lia.
    nia.
Qed.

Lemma ascii_compare_digit_val (c1 c2 : ascii) :
  Ascii.compare c1 c2 = Z.compare (digit_val c1) (digit_val c2).
Proof.
  unfold Ascii.compare, digit_val, nat_of_ascii.
  rewrite !N_nat_Z, <- N2Z.inj_compare.
  destruct (Z.compare_spec (Z.of_N (N_of_ascii c1)) (Z.of_N (N_of_ascii c2)));
    symmetry; [apply Z.compare_eq_iff | apply Z.compare_lt_iff
              | apply Z.compare_gt_iff]; lia.
Qed.

(** On digit strings of one length the string order is the order of the
    numbers they write. *)
Lemma compare_decimal (s1 s2 : string) :
  String.length s1 = String.length s2 ->
  all_digits s1 = true -> all_digits s2 = true ->
  String.compare s1 s2 = Z.compare (decimal 0 s1) (decimal 0 s2).
Proof.
  revert s2. induction s1 as [|c1 s1 IH]; intros [|c2 s2];
    cbn [String.length all_digits]; try discriminate.
  - reflexivity.
  - intros [= Hlen] H1 H2.
    apply andb_prop in H1 as [Hc1 Hs1]. apply andb_prop in H2 as [Hc2 Hs2].
    cbn [String.compare decimal].
    rewrite (decimal_shift s1), (decimal_shift s2), <- Hlen.
    rewrite ascii_compare_digit_val, (IH s2 Hlen Hs1 Hs2).
    pose proof (decimal_bound s1 Hs1) as B1.
    pose proof (decimal_bound s2 Hs2) as B2. rewrite <- Hlen in B2.
    set (P := (10 ^ Z.of_nat (String.length s1))%Z) in *.
    set (r1 := decimal 0 s1) in *. set (r2 := decimal 0 s2) in *.
    set (d1 := digit_val c1). set (d2 := digit_val c2).
    destruct (Z.compare_spec d1 d2) as [Heq | Hlt | Hgt].
    + rewrite Heq.
      destruct (Z.compare_spec r1 r2); symmetry;
        [apply Z.compare_eq_iff | apply Z.compare_lt_iff
        | apply Z.compare_gt_iff]; nia.
    + symmetry. apply Z.compare_lt_iff. nia.
    + symmetry. apply Z.compare_gt_iff. nia.
Qed.

Lemma compare_append (a a' b b' : string) :
  String.length a = String.length a' ->
  String.compare (a ++ b) (a' ++ b') =
  match String.compare a a' with
  | Eq => String.compare b b'
  | ne => ne
  end.
Proof.
  revert a'. induction a as [|c a IH]; intros [|c' a']; simpl; try discriminate.
  - reflexivity.
  - intros [= Hlen]. destruct (Ascii.compare c c'); auto.
Qed.

Lemma _int_compare_sign (a b : Z) : _int_compare a b = Ok (sign (Z.compare a b)).
Proof.
  unfold _int_compare.
  destruct (Z.ltb_spec a b) as [Hlt | Hge].
  - apply Z.compare_lt_iff in Hlt. now rewrite Hlt.
  - destruct (Z.eqb_spec a b) as [-> | Hne].
    + now rewrite Z.compare_refl.
    + assert (Hgt : (a > b)%Z) by lia.
      rewrite (proj2 (Z.gtb_gt a b) Hgt). unfold Z.gt in Hgt. now rewrite Hgt.
Qed.

(** A version key is its three fields side by side, and the slices of
    [_compare_version] are those fields. *)
Lemma version_key_fields (v : string) :
  version_key v ->
  exists y mo d,
    v = y ++ mo ++ d /\
    slice v 0 4 = y /\ slice v 4 6 = mo /\ slice v 6 8 = d /\
    String.length y = 4 /\ String.length mo = 2 /\ String.length d = 2 /\
    all_digits y = true /\ all_digits mo = true /\ all_digits d = true.
Proof.
  intros [Hlen Hdig].
  do 8 (destruct v as [|? v]; [discriminate Hlen|]).
  destruct v; [|discriminate Hlen].
  cbn [all_digits] in Hdig.
  repeat match type of Hdig with
         | (_ && _)%bool = true => apply andb_prop in Hdig as [? Hdig]
         end.
  eexists (String _ (String _ (String _ (String _ EmptyString)))),
          (String _ (String _ EmptyString)),
          (String _ (String _ EmptyString)).
  repeat split; try reflexivity;
    cbn [all_digits];
    repeat match goal with H : is_digit _ = true |- _ => rewrite H; clear H end;
    reflexivity.
Qed.

Lemma length_not_empty (s : string) (n : nat) :
  String.length s = S n -> s <> EmptyString.
Proof. destruct s; simpl; congruence. Qed.

(** On version keys [_compare_version] returns the sign of the string
    comparison. *)
Lemma _compare_version_sign (v1 v2 : string) :
  version_key v1 -> version_key v2 ->
  _compare_version v1 v2 = Ok (Some (sign (String.compare v1 v2))).
Proof.
  intros H1 H2.
  destruct (version_key_fields v1 H1)
    as (y1 & mo1 & d1 & E1 & Sy1 & Sm1 & Sd1 & Ly1 & Lm1 & Ld1 & Dy1 & Dm1 & Dd1).
  destruct (version_key_fields v2 H2)
    as (y2 & mo2 & d2 & E2 & Sy2 & Sm2 & Sd2 & Ly2 & Lm2 & Ld2 & Dy2 & Dm2 & Dd2).
  unfold _compare_version. cbn [_compare_version_loop].
  rewrite Sy1, Sy2, Sm1, Sm2, Sd1, Sd2.
  rewrite (int_all_digits y1), (int_all_digits y2), (int_all_digits mo1),
    (int_all_digits mo2), (int_all_digits d1), (int_all_digits d2);
    eauto using length_not_empty.
  cbn [rbind]. rewrite !_int_compare_sign. cbn [rbind].
  rewrite E1, E2.
  rewrite (compare_append y1 y2) by congruence.
  rewrite (compare_append mo1 mo2) by congruence.
  rewrite (compare_decimal y1 y2), (compare_decimal mo1 mo2),
    (compare_decimal d1 d2) by congruence.
  destruct (decimal 0 y1 ?= decimal 0 y2)%Z; try reflexivity.
  destruct (decimal 0 mo1 ?= decimal 0 mo2)%Z; try reflexivity.
  destruct (decimal 0 d1 ?= decimal 0 d2)%Z; reflexivity.
Qed.

(** C9.  On version keys (eight decimal digits) the string order used by
    the resolver and the year, month, day comparison of
    [_compare_version] agree: less, equal and greater correspond to the
    results -1, 0 and 1. *)
Theorem string_order_agrees_with_compare_version (v1 v2 : string) :
  version_key v1 -> version_key v2 ->
  (str_lt v1 v2 <-> _compare_version v1 v2 = Ok (Some (-1)%Z)) /\
  (v1 = v2 <-> _compare_version v1 v2 = Ok (Some 0%Z)) /\
  (str_lt v2 v1 <-> _compare_version v1 v2 = Ok (Some 1%Z)).
Proof.
  intros H1 H2. rewrite (_compare_version_sign v1 v2 H1 H2).
  rewrite !str_lt_compare, (String.compare_antisym v2 v1).
  assert (Heq : v1 = v2 <-> String.compare v1 v2 = Eq).
  { split; [intros ->; apply compare_refl | apply String.compare_eq_iff]. }
  rewrite Heq.
  destruct (String.compare v1 v2); simpl;
    repeat split; intros; congruence.
Qed.

Lemma string_order_agrees_with_compare_version_witness :
  (str_lt "20200601" "20200721" <->
   _compare_version "20200601" "20200721" = Ok (Some (-1)%Z)) /\
  ("20200601" = "20200721" <->
   _compare_version "20200601" "20200721" = Ok (Some 0%Z)) /\
  (str_lt "20200721" "20200601" <->
   _compare_version "20200601" "20200721" = Ok (Some 1%Z)).
Proof.
  apply (string_order_agrees_with_compare_version "20200601" "20200721");
    split; reflexivity.
Defined.

(** * Further properties of the code *)

(** ** The resolver beyond ascending lists *)

Lemma bisect_loop_returns (a : list string) (x : string) (lo hi : nat) :
  lo <= hi <= List.length a ->
  exists r, bisect_loop a x lo hi = Ok r /\ lo <= r <= hi.
Proof.
  funelim (bisect_loop a x lo hi); intros Hb.
  - exists lo. split; [reflexivity | lia].
  - exfalso.
    assert (Hm : (lo + hi) / 2 < hi)
      by (apply Nat.Div0.div_lt_upper_bound; lia).
    apply nth_error_None in Heq. lia.
  - assert (Hm : lo <= (lo + hi) / 2 < hi)
      by (split; [apply Nat.div_le_lower_bound
                 | apply Nat.Div0.div_lt_upper_bound]; lia).
    destruct (H ltac:(lia)) as (r & Hr & Hrb).
    exists r. split; [exact Hr | lia].
  - assert (Hm : lo <= (lo + hi) / 2 < hi)
      by (split; [apply Nat.div_le_lower_bound
                 | apply Nat.Div0.div_lt_upper_bound]; lia).
    destruct (H ltac:(lia)) as (r & Hr & Hrb).
    exists r. split; [exact Hr | lia].
Qed.

(** The resolver never raises, sorted list or not: the index it computes
    is always in range, what it returns is an element of the list, and on
    the empty list it returns [None]. *)
Theorem _get_last_version_never_raises (a : list string) (x : string) :
  exists r,
    _get_last_version a x = Ok r /\
    (forall e, r = Some e -> In e a) /\
    (a = [] -> r = None).
Proof.
  unfold _get_last_version, bisect_right.
  destruct (bisect_loop_returns a x 0 (List.length a)) as (i & -> & Hi); [lia|].
  simpl. destruct i as [|i].
  - exists None. repeat split; discriminate.
  - replace (Z.of_nat (S i) - 1 <? 0)%Z with false
      by (symmetry; apply Z.ltb_ge; lia).
    replace (Z.to_nat (Z.of_nat (S i) - 1)) with i by lia.
    destruct (nth_error a i) as [e|] eqn:He.
    2: { apply nth_error_None in He. lia. }
    exists (Some e). split; [reflexivity|]. split.
    + intros e0 [= <-]. eapply nth_error_In; eauto.
    + intros ->. simpl in Hi. lia.
Qed.

Lemma _get_last_version_never_raises_witness :
  exists r,
    _get_last_version ["20200721"; "20200601"; "20200801"] "20200615" = Ok r /\
    (forall e, r = Some e -> In e ["20200721"; "20200601"; "20200801"]) /\
    (["20200721"; "20200601"; "20200801"] = [] -> r = None).
Proof.
  apply (_get_last_version_never_raises ["20200721"; "20200601"; "20200801"]
           "20200615").
Defined.

Lemma str_le_antisym (a b : string) : str_le a b -> str_le b a -> a = b.
Proof. apply String.leb_antisym. Qed.

Lemma _get_last_version_member (L : list string) (V : string) :
  Sorted str_le L -> In V L -> _get_last_version L V = Ok (Some V).
Proof.
  intros HL HV. apply Sorted_ascending in HL.
  destruct (_get_last_version_cases L V HL)
    as [[_ Hall] | (e & Hr & Hin & Hle & Hmax)].
  - exfalso. exact (str_lt_irrefl V (Hall V HV)).
  - rewrite Hr. do 2 f_equal. apply str_le_antisym; auto with strord.
Qed.

(** Asking for a version that is in the list returns that version. *)
Theorem _get_last_version_exact (L : list string) (V : string) :
  Sorted str_le L -> In V L -> _get_last_version L V = Ok (Some V).
Proof. apply _get_last_version_member. Qed.

Lemma _get_last_version_exact_witness :
  _get_last_version ["20200601"; "20200721"] "20200721" = Ok (Some "20200721").
Proof.
  apply (_get_last_version_exact ["20200601"; "20200721"] "20200721").
  - repeat constructor.
  - right. left. reflexivity.
Defined.

(** A later request never resolves to an earlier version: the resolved
    version grows with the requested one, and a request that resolves
    keeps resolving for every later request. *)
Theorem _get_last_version_monotone (L : list string) (V V' : string) :
  Sorted str_le L -> str_le V V' ->
  forall e,
    _get_last_version L V = Ok (Some e) ->
    exists e', _get_last_version L V' = Ok (Some e') /\ str_le e e'.
Proof.
  intros HL HVV e He. apply Sorted_ascending in HL.
  destruct (_get_last_version_cases L V HL)
    as [[Hr _] | (e0 & Hr & Hin & Hle & _)]; [congruence|].
  assert (e0 = e) by congruence. subst e0.
  destruct (_get_last_version_cases L V' HL)
    as [[_ Hall] | (e' & Hr' & Hin' & Hle' & Hmax')].
  - exfalso. apply (str_lt_not_le V' e (Hall e Hin)).
    eapply str_le_trans; eauto.
  - exists e'. split; [exact Hr'|]. apply Hmax'; auto.
    eapply str_le_trans; eauto.
Qed.

Lemma _get_last_version_monotone_witness :
  exists e',
    _get_last_version ["20200601"; "20200721"] "20200801" = Ok (Some e') /\
    str_le "20200601" e'.
Proof.
  apply (_get_last_version_monotone ["20200601"; "20200721"]
           "20200615" "20200801").
  - repeat constructor.
  - reflexivity.
  - reflexivity.
Defined.

(** [_get_first_available_version] raises [IndexError] on the empty list
    and returns the least key on the sorted keys of a non-empty table. *)
Theorem _get_first_available_version_least (keys : list string) :
  (keys = [] -> _get_first_available_version (sorted keys) = Raise IndexError) /\
  (keys <> [] ->
   exists first,
     _get_first_available_version (sorted keys) = Ok first /\
     In first keys /\ forall v, In v keys -> str_le first v).
Proof.
  split.
  - intros ->. reflexivity.
  - apply _get_first_available_version_sorted.
Qed.

Lemma _get_first_available_version_least_witness :
  exists first,
    _get_first_available_version (sorted ["20200721"; "20200601"]) = Ok first /\
    In first ["20200721"; "20200601"] /\
    forall v, In v ["20200721"; "20200601"] -> str_le first v.
Proof.
  apply (proj2 (_get_first_available_version_least ["20200721"; "20200601"])).
  discriminate.
Defined.

(** ** [_compare_version] on arbitrary strings *)

Lemma sign_CompOpp (c : comparison) : sign (CompOpp c) = (- sign c)%Z.
Proof. now destruct c. Qed.

Lemma sign_eq_0 (c : comparison) : (sign c =? 0)%Z = true <-> c = Eq.
Proof. destruct c; simpl; split; congruence. Qed.

(** Whenever [_compare_version] returns, it returns -1, 0 or 1 (never
    [None]), and comparing the other way round returns the opposite. *)
Theorem _compare_version_antisym (v1 v2 : string) (r : option Z) :
  _compare_version v1 v2 = Ok r ->
  exists c,
    r = Some (sign c) /\
    _compare_version v2 v1 = Ok (Some (sign (CompOpp c))).
Proof.
  unfold _compare_version. cbn [_compare_version_loop].
  destruct (int (slice v1 0 4)) as [y1|]; [|discriminate].
  destruct (int (slice v2 0 4)) as [y2|]; [|discriminate].
  cbn [rbind]. rewrite !_int_compare_sign. cbn [rbind].
  rewrite (Z.compare_antisym y1 y2).
  destruct (y1 ?= y2)%Z; cbn [CompOpp sign Z.eqb negb];
    try (intros [= <-]; (exists Lt + exists Gt); split; reflexivity).
  destruct (int (slice v1 4 6)) as [m1|]; [|discriminate].
  destruct (int (slice v2 4 6)) as [m2|]; [|discriminate].
  cbn [rbind]. rewrite !_int_compare_sign. cbn [rbind].
  rewrite (Z.compare_antisym m1 m2).
  destruct (m1 ?= m2)%Z; cbn [CompOpp sign Z.eqb negb];
    try (intros [= <-]; (exists Lt + exists Gt); split; reflexivity).
  destruct (int (slice v1 6 8)) as [d1|]; [|discriminate].
  destruct (int (slice v2 6 8)) as [d2|]; [|discriminate].
  cbn [rbind]. rewrite !_int_compare_sign. cbn [rbind].
  rewrite (Z.compare_antisym d1 d2).
  destruct (d1 ?= d2)%Z; cbn [CompOpp sign Z.eqb negb];
    intros [= <-]; (exists Eq + exists Lt + exists Gt); split; reflexivity.
Qed.

Lemma _compare_version_antisym_witness :
  exists c,
    Some (-1)%Z = Some (sign c) /\
    _compare_version "20200721" "20200601" = Ok (Some (sign (CompOpp c))).
Proof.
  apply (_compare_version_antisym "20200601" "20200721" (Some (-1)%Z)).
  reflexivity.
Defined.

(** The loop stops at the first field that differs: when the year fields
    parse and differ the answer is their order, whatever follows them,
    malformed or not. *)
Theorem _compare_version_stops_at_first_difference (v1 v2 : string) (y1 y2 : Z) :
  int (slice v1 0 4) = Ok y1 ->
  int (slice v2 0 4) = Ok y2 ->
  y1 <> y2 ->
  _compare_version v1 v2 = Ok (Some (sign (y1 ?= y2)%Z)).
Proof.
  intros H1 H2 Hne. unfold _compare_version. cbn [_compare_version_loop].
  rewrite H1, H2. cbn [rbind]. rewrite _int_compare_sign. cbn [rbind].
  destruct (y1 ?= y2)%Z eqn:Hc; try reflexivity.
  apply Z.compare_eq_iff in Hc. contradiction.
Qed.

Lemma _compare_version_stops_at_first_difference_witness :
  _compare_version "2020xx01" "2021" = Ok (Some (sign (2020 ?= 2021)%Z)).
Proof.
  apply (_compare_version_stops_at_first_difference "2020xx01" "2021" 2020 2021).
  - reflexivity.
  - reflexivity.
  - discriminate.
Defined.

(** A field that is reached and does not parse makes the comparison raise
    [ValueError]: the year field always, the month field when the years
    are equal.  In particular a string shorter than five characters
    compared with itself raises. *)
Theorem _compare_version_raises_on_unparsed_field (v1 v2 : string) :
  (forall e, int (slice v1 0 4) = Raise e -> _compare_version v1 v2 = Raise e) /\
  (forall y e,
      int (slice v1 0 4) = Ok y -> int (slice v2 0 4) = Ok y ->
      int (slice v1 4 6) = Raise e -> _compare_version v1 v2 = Raise e) /\
  (String.length v1 <= 4 -> exists e, _compare_version v1 v1 = Raise e).
Proof.
  unfold _compare_version. cbn [_compare_version_loop]. split; [|split].
  - intros e ->. reflexivity.
  - intros y e -> -> Hm. cbn [rbind]. rewrite _int_compare_sign, Z.compare_refl.
    cbn [rbind sign Z.eqb negb]. now rewrite Hm.
  - intros Hlen.
    assert (Hempty : slice v1 4 6 = EmptyString).
    { unfold slice. simpl.
      do 4 (destruct v1 as [|? v1]; [reflexivity|]).
      destruct v1; [reflexivity | simpl in Hlen; lia]. }
    destruct (int (slice v1 0 4)) as [y|e]; [|eexists; reflexivity].
    cbn [rbind]. rewrite _int_compare_sign, Z.compare_refl.
    cbn [rbind sign Z.eqb negb]. rewrite Hempty. eexists. reflexivity.
Qed.

Lemma _compare_version_raises_on_unparsed_field_witness :
  exists e, _compare_version "2020" "2020" = Raise e.
Proof.
  apply (_compare_version_raises_on_unparsed_field "2020" "2020").
  simpl. lia.
Defined.

(** ** What a refresh writes on the proxy *)

Lemma refreshed_metadata method_dict function_name version w w' :
  refreshed method_dict function_name version w = Ok w' ->
  proxy_name w' = function_name /\
  proxy_qualname w' = function_name /\
  proxy_function_name w' = proxy_function_name w /\
  ((exists e f,
       _get_last_version (sorted (dict_keys method_dict)) version = Ok (Some e) /\
       dict_get method_dict e = Some f /\
       proxy_doc w' = __doc__ f /\ proxy_wrapped w' = Some f) \/
   (exists first,
       _get_last_version (sorted (dict_keys method_dict)) version = Ok None /\
       _get_first_available_version (sorted (dict_keys method_dict)) = Ok first /\
       proxy_doc w' = Some (unavailable_doc function_name version first) /\
       proxy_wrapped w' = proxy_wrapped w)).
Proof.
  unfold refreshed, rbind, dict_item.
  destruct (_get_last_version (sorted (dict_keys method_dict)) version)
    as [[e|]|]; try discriminate.
  - destruct (dict_get method_dict e) as [f|] eqn:Hf; [|discriminate].
    intros [= <-]. simpl. repeat split. left. exists e, f. auto.
  - destruct (_get_first_available_version (sorted (dict_keys method_dict)))
      as [first|]; [|discriminate].
    intros [= <-]. simpl. repeat split. right. exists first. auto.
Qed.

(** The exact module [_module_vc] leaves behind. *)
Lemma _module_vc_exact func m idx :
  rfind "_" (__name__ func) = Some idx ->
  let function_name := base_name (__name__ func) idx in
  let version := version_suffix (__name__ func) idx in
  let method_dict :=
    dict_set
      match dict_get (_method_dicts m) function_name with
      | Some method_dict => method_dict
      | None => []
      end version func in
  exists w',
    refreshed method_dict function_name (_version m)
      (update_wrapper (new_run_method function_name) func) = Ok w' /\
    _module_vc func m =
    (Ok func,
     with_attrs
       (with_method_dicts m
          (dict_set (_method_dicts m) function_name method_dict))
       (dict_set (attrs m) function_name w')).
Proof.
  intros Hidx function_name version method_dict.
  set (m4 := with_attrs
               (with_method_dicts m
                  (dict_set (_method_dicts m) function_name method_dict))
               (dict_set (attrs m) function_name
                  (update_wrapper (new_run_method function_name) func))).
  assert (Hprefix :
    _module_vc func m =
    match _update_module_vc function_name (_version m) m4 with
    | (Ok _, m') => (Ok func, m')
    | (Raise e, m') => (Raise e, m')
    end).
  { unfold _module_vc, bind, lift, rindex. rewrite Hidx.
    fold (base_name (__name__ func) idx). fold function_name.
    fold (version_suffix (__name__ func) idx). fold version.
    unfold read, write, ret, setattr, dict_mem, dict_item, m4, method_dict.
    destruct (dict_get (_method_dicts m) function_name) as [md0|] eqn:Hmd;
      simpl; rewrite ?Hmd, ?dict_get_set_eq, ?dict_set_set; reflexivity. }
  destruct (refreshed_ok method_dict function_name (_version m)
              (update_wrapper (new_run_method function_name) func))
    as [w' Hr]; [apply dict_set_not_nil|].
  exists w'. split; [exact Hr|].
  rewrite Hprefix, _update_module_vc_unfold. simpl.
  rewrite !dict_get_set_eq, Hr. unfold with_attrs. simpl.
  now rewrite dict_set_set.
Qed.

(** ** Registration and dispatch *)

Lemma sorted_keys_exact {V : Type} (d : dict V) (k : string) :
  In k (dict_keys d) ->
  _get_last_version (sorted (dict_keys d)) k = Ok (Some k).
Proof.
  intros Hin. apply _get_last_version_member; [apply sorted_Sorted|].
  now apply sorted_In.
Qed.

(** Round trip of registration and lookup: once [vc] has registered a
    function, calling the proxy of its base name with the function's own
    version suffix runs that function, with the arguments as given. *)
Theorem registered_function_is_dispatched func m idx :
  rfind "_" (__name__ func) = Some idx ->
  forall call args kwargs,
    _run_method call (base_name (__name__ func) idx) args
      (Some (version_suffix (__name__ func) idx)) kwargs (snd (vc func m))
    = call func args kwargs (snd (vc func m)).
Proof.
  intros Hidx call args kwargs. unfold vc.
  destruct (_module_vc_exact func m idx Hidx) as (w' & _ & ->).
  rewrite _run_method_explicit. simpl. unfold dict_item.
  rewrite dict_get_set_eq.
  rewrite sorted_keys_exact, dict_get_set_eq; [reflexivity|].
  apply dict_get_In_keys. rewrite dict_get_set_eq. discriminate.
Qed.

Lemma registered_function_is_dispatched_witness :
  _run_method names_call "foo" [] (Some "2020xx01") []
    (snd (vc (def "_foo_2020xx01" "" [] 5) pm))
  = names_call (def "_foo_2020xx01" "" [] 5) [] []
      (snd (vc (def "_foo_2020xx01" "" [] 5) pm)).
Proof.
  apply (registered_function_is_dispatched (def "_foo_2020xx01" "" [] 5) pm 4).
  reflexivity.
Defined.

Lemma dict_keys_set_present {V : Type} (d : dict V) (k : string) (v : V) :
  dict_get d k <> None -> dict_keys (dict_set d k v) = dict_keys d.
Proof.
  induction d as [|[k' v'] d IH]; simpl; [congruence|].
  destruct (String.eqb k k') eqn:E; simpl.
  - apply String.eqb_eq in E. now subst.
  - intros H. now rewrite IH.
Qed.

Lemma dict_keys_set_In {V : Type} (d : dict V) (k k' : string) (v : V) :
  In k' (dict_keys (dict_set d k v)) <-> k' = k \/ In k' (dict_keys d).
Proof.
  rewrite !dict_get_In_keys.
  destruct (string_dec k' k) as [->|Hne].
  - rewrite dict_get_set_eq. intuition discriminate.
  - rewrite dict_get_set_neq by assumption. intuition.
Qed.

(** Registering a (name, version) pair that exists already replaces the
    implementation and nothing else: the versions of the name and their
    order stay, the other versions keep their implementations. *)
Theorem registration_overwrites func m idx method_dict :
  rfind "_" (__name__ func) = Some idx ->
  dict_get (_method_dicts m) (base_name (__name__ func) idx) = Some method_dict ->
  dict_get method_dict (version_suffix (__name__ func) idx) <> None ->
  exists method_dict',
    dict_get (_method_dicts (snd (vc func m))) (base_name (__name__ func) idx)
    = Some method_dict' /\
    dict_keys method_dict' = dict_keys method_dict /\
    dict_get method_dict' (version_suffix (__name__ func) idx) = Some func /\
    forall v, v <> version_suffix (__name__ func) idx ->
              dict_get method_dict' v = dict_get method_dict v.
Proof.
  intros Hidx Hmd Hold. unfold vc.
  destruct (_module_vc_exact func m idx Hidx) as (w' & _ & ->).
  simpl. rewrite Hmd, dict_get_set_eq. eexists. split; [reflexivity|].
  split; [now apply dict_keys_set_present|].
  split; [apply dict_get_set_eq|].
  intros v Hv. now apply dict_get_set_neq.
Qed.

Lemma registration_overwrites_witness :
  exists method_dict',
    dict_get
      (_method_dicts
         (snd (vc (def "_some_method_20200601" "again" [] 6) pm)))
      "some_method"
    = Some method_dict' /\
    dict_keys method_dict' = ["20200601"; "20200721"] /\
    dict_get method_dict' "20200601"
    = Some (def "_some_method_20200601" "again" [] 6) /\
    forall v, v <> "20200601" ->
              dict_get method_dict' v
              = dict_get [("20200601", _some_method_20200601);
                          ("20200721", _some_method_20200721)] v.
Proof.
  apply (registration_overwrites (def "_some_method_20200601" "again" [] 6) pm
           12 [("20200601", _some_method_20200601);
               ("20200721", _some_method_20200721)]).
  - reflexivity.
  - vm_compute. reflexivity.
  - vm_compute. discriminate.
Defined.

(** The resolver only looks at the versions that are not after the
    requested one. *)
Lemma _get_last_version_ext (l l' : list string) (v : string) :
  (forall k, str_le k v -> (In k l <-> In k l')) ->
  _get_last_version (sorted l) v = _get_last_version (sorted l') v.
Proof.
  intros Hsame.
  destruct (_get_last_version_sorted l v)
    as [[-> Hall] | (e & -> & Hin & Hle & Hmax)];
    destruct (_get_last_version_sorted l' v)
      as [[-> Hall'] | (e' & -> & Hin' & Hle' & Hmax')].
  - reflexivity.
  - exfalso. apply (str_lt_not_le v e'); auto. apply Hall. now apply Hsame.
  - exfalso. apply (str_lt_not_le v e); auto. apply Hall'. now apply Hsame.
  - do 2 f_equal. apply str_le_antisym.
    + apply Hmax'; auto. now apply Hsame.
    + apply Hmax; auto. now apply Hsame.
Qed.

(** Backward compatibility: registering an implementation does not change
    what any earlier requested version resolves to.  A call that was
    forwarded to [f] for a requested version below the new one is still
    forwarded to [f] afterwards. *)
Theorem later_version_keeps_earlier_dispatch func m idx method_dict v e f :
  rfind "_" (__name__ func) = Some idx ->
  dict_get (_method_dicts m) (base_name (__name__ func) idx) = Some method_dict ->
  str_lt v (version_suffix (__name__ func) idx) ->
  _get_last_version (sorted (dict_keys method_dict)) v = Ok (Some e) ->
  dict_get method_dict e = Some f ->
  forall call args kwargs,
    _run_method call (base_name (__name__ func) idx) args (Some v) kwargs m
    = call f args kwargs m /\
    _run_method call (base_name (__name__ func) idx) args (Some v) kwargs
      (snd (vc func m))
    = call f args kwargs (snd (vc func m)).
Proof.
  intros Hidx Hmd Hlt Hres Hf call args kwargs. split.
  - rewrite _run_method_explicit. unfold dict_item. now rewrite Hmd, Hres, Hf.
  - unfold vc. destruct (_module_vc_exact func m idx Hidx) as (w' & _ & ->).
    rewrite _run_method_explicit. simpl. unfold dict_item.
    rewrite dict_get_set_eq, Hmd.
    assert (He : e <> version_suffix (__name__ func) idx).
    { intros ->.
      destruct (_get_last_version_sorted (dict_keys method_dict) v)
        as [[Hr _] | (e' & Hr & _ & Hle & _)]; [congruence|].
      assert (e' = version_suffix (__name__ func) idx) by congruence. subst e'.
      exact (str_lt_not_le _ _ Hlt Hle). }
    rewrite (_get_last_version_ext _ (dict_keys method_dict) v), Hres.
    + now rewrite dict_get_set_neq, Hf.
    + intros k Hk. rewrite dict_keys_set_In. split; [|tauto].
      intros [-> | H]; [|exact H].
      exfalso. exact (str_lt_not_le _ _ Hlt Hk).
Qed.

Lemma later_version_keeps_earlier_dispatch_witness :
  _run_method names_call "some_method" [] (Some "20200801") [] pm
  = names_call _some_method_20200721 [] [] pm /\
  _run_method names_call "some_method" [] (Some "20200801") []
    (snd (vc (def "_some_method_20200901" "" [] 7) pm))
  = names_call _some_method_20200721 [] []
      (snd (vc (def "_some_method_20200901" "" [] 7) pm)).
Proof.
  apply (later_version_keeps_earlier_dispatch
           (def "_some_method_20200901" "" [] 7) pm 12
           [("20200601", _some_method_20200601);
            ("20200721", _some_method_20200721)]
           "20200801" "20200721" _some_method_20200721);
    vm_compute; reflexivity.
Defined.

(** Registering a function whose base name is not a reserved attribute
    touches that base name only: the version tables and the proxies of
    the other names, the active version, the tool tables and the display
    version are as before. *)
Theorem registration_frame func m idx :
  rfind "_" (__name__ func) = Some idx ->
  reserved (base_name (__name__ func) idx) = false ->
  let m' := snd (vc func m) in
  (forall k, k <> base_name (__name__ func) idx ->
             dict_get (_method_dicts m') k = dict_get (_method_dicts m) k /\
             dict_get (attrs m') k = dict_get (attrs m) k) /\
  _version m' = _version m /\
  _tool_dicts m' = _tool_dicts m /\
  _module_display_version m' = _module_display_version m.
Proof.
  intros Hidx _. unfold vc.
  destruct (_module_vc_exact func m idx Hidx) as (w' & _ & ->). simpl.
  repeat split; auto; now apply dict_get_set_neq.
Qed.

Lemma registration_frame_witness :
  (forall k, k <> "foo" ->
             dict_get (_method_dicts (snd (vc (def "_foo_1" "" [] 5) pm))) k
             = dict_get (_method_dicts pm) k /\
             dict_get (attrs (snd (vc (def "_foo_1" "" [] 5) pm))) k
             = dict_get (attrs pm) k) /\
  _version (snd (vc (def "_foo_1" "" [] 5) pm)) = _version pm /\
  _tool_dicts (snd (vc (def "_foo_1" "" [] 5) pm)) = _tool_dicts pm /\
  _module_display_version (snd (vc (def "_foo_1" "" [] 5) pm))
  = _module_display_version pm.
Proof.
  apply (registration_frame (def "_foo_1" "" [] 5) pm 4); reflexivity.
Defined.

(** ** The naming convention *)

Lemma rfind_append (c : ascii) (a b : string) :
  rfind c b = None -> rfind c (a ++ String c b) = Some (String.length a).
Proof.
  intros Hb. induction a as [|x a IH]; simpl.
  - now rewrite Hb, Ascii.eqb_refl.
  - now rewrite IH.
Qed.

Lemma substring_prefix (a b : string) :
  String.substring 0 (String.length a) (a ++ b) = a.
Proof.
  induction a as [|x a IH]; simpl.
  - now destruct b.
  - now rewrite IH.
Qed.

Lemma substring_skip (a b : string) (n : nat) :
  String.substring (String.length a) n (a ++ b) = String.substring 0 n b.
Proof. induction a as [|x a IH]; simpl; auto. Qed.

Lemma substring_all (s : string) : String.substring 0 (String.length s) s = s.
Proof. induction s as [|x s IH]; simpl; [reflexivity | now rewrite IH]. Qed.

Lemma length_append (a b : string) :
  String.length (a ++ b) = String.length a + String.length b.
Proof. induction a as [|x a IH]; simpl; auto. Qed.

(** How a function name is read: the first character is dropped, whatever
    it is, the text after the last underscore is the version, and what
    lies between is the base name, which may itself contain underscores. *)
Theorem function_name_is_split (c : ascii) (base version : string) :
  rfind "_" version = None ->
  let name := String c (base ++ String "_" version) in
  rindex name "_" = Ok (S (String.length base)) /\
  base_name name (S (String.length base)) = base /\
  version_suffix name (S (String.length base)) = version.
Proof.
  intros Hv name. unfold name, rindex, base_name, version_suffix, slice,
    slice_from.
  split; [|split].
  - cbn [rfind]. now rewrite (rfind_append "_" base version Hv).
  - replace (S (String.length base) - 1) with (String.length base) by lia.
    change (String.substring 1 (String.length base)
              (String c (base ++ String "_" version)))
      with (String.substring 0 (String.length base)
              (base ++ String "_" version)).
    apply substring_prefix.
  - cbn [String.length]. rewrite length_append. cbn [String.length].
    replace (S (String.length base) + 1) with (S (S (String.length base)))
      by lia.
    replace (S (String.length base + S (String.length version))
             - S (S (String.length base)))
      with (String.length version) by lia.
    change (String.substring (S (S (String.length base)))
              (String.length version) (String c (base ++ String "_" version)))
      with (String.substring (S (String.length base)) (String.length version)
              (base ++ String "_" version)).
    change (S (String.length base)) with (String.length (String "_" base)) at 1.
    replace (base ++ String "_" version)
      with ((base ++ "_") ++ version).
    2: { clear. induction base as [|x b IH]; simpl; [reflexivity|].
         now rewrite IH. }
    replace (String.length (String "_" base)) with (String.length (base ++ "_"))
      by (rewrite length_append; simpl; lia).
    rewrite substring_skip. apply substring_all.
Qed.

Lemma function_name_is_split_witness :
  rindex "_some_method_20200601" "_" = Ok (S (String.length "some_method")) /\
  base_name "_some_method_20200601" (S (String.length "some_method"))
  = "some_method" /\
  version_suffix "_some_method_20200601" (S (String.length "some_method"))
  = "20200601".
Proof.
  apply (function_name_is_split "_" "some_method" "20200601"). reflexivity.
Defined.

(** ** Dispatch to the latest applicable implementation *)

(** When the name has a version that is not after the requested one, the
    proxy forwards the call, arguments unchanged, to the implementation
    registered at the greatest such version; this holds with an explicit
    version and, for the active version, when the keyword is omitted. *)
Theorem proxy_forwards_to_latest m function_name method_dict v e0 :
  dict_get (_method_dicts m) function_name = Some method_dict ->
  In e0 (dict_keys method_dict) -> str_le e0 v ->
  exists e f,
    In e (dict_keys method_dict) /\ str_le e v /\
    (forall e', In e' (dict_keys method_dict) -> str_le e' v -> str_le e' e) /\
    dict_get method_dict e = Some f /\
    (forall call args kwargs,
        _run_method call function_name args (Some v) kwargs m
        = call f args kwargs m) /\
    (_version m = v ->
     forall call args kwargs,
       _run_method call function_name args None kwargs m
       = call f args kwargs m).
Proof.
  intros Hmd Hin0 Hle0.
  destruct (_get_last_version_sorted (dict_keys method_dict) v)
    as [[_ Hall] | (e & Hr & Hin & Hle & Hmax)].
  - exfalso. exact (str_lt_not_le v e0 (Hall e0 Hin0) Hle0).
  - destruct (dict_item_keys method_dict e Hin) as (f & Hf & _).
    assert (Hexplicit : forall call args kwargs,
               _run_method call function_name args (Some v) kwargs m
               = call f args kwargs m).
    { intros call args kwargs. rewrite _run_method_explicit. unfold dict_item.
      now rewrite Hmd, Hr, Hf. }
    exists e, f. repeat split; auto.
    intros Hv call args kwargs. rewrite _run_method_omitted, Hv.
    apply Hexplicit.
Qed.

Lemma proxy_forwards_to_latest_witness :
  exists e f,
    In e ["20200601"; "20200721"] /\ str_le e "20201201" /\
    (forall e', In e' ["20200601"; "20200721"] ->
                str_le e' "20201201" -> str_le e' e) /\
    dict_get [("20200601", _some_method_20200601);
              ("20200721", _some_method_20200721)] e = Some f /\
    (forall call args kwargs,
        _run_method call "some_method" args (Some "20201201") kwargs pm
        = call f args kwargs pm) /\
    (_version pm = "20201201" ->
     forall call args kwargs,
       _run_method call "some_method" args None kwargs pm
       = call f args kwargs pm).
Proof.
  apply (proxy_forwards_to_latest pm "some_method"
           [("20200601", _some_method_20200601);
            ("20200721", _some_method_20200721)]
           "20201201" "20200601").
  - vm_compute. reflexivity.
  - left. reflexivity.
  - reflexivity.
Defined.

(** ** Invariants of registered modules *)

Lemma proxies_bound_frame m m' :
  _method_dicts m' = _method_dicts m ->
  (forall k w,
      dict_get (attrs m) k = Some w ->
      proxy_function_name w = k -> proxy_name w = k -> proxy_qualname w = k ->
      exists w',
        dict_get (attrs m') k = Some w' /\ proxy_function_name w' = k /\
        proxy_name w' = k /\ proxy_qualname w' = k) ->
  proxies_bound m -> proxies_bound m'.
Proof.
  intros Hreg Hattrs Hb function_name method_dict Hget.
  rewrite Hreg in Hget.
  destruct (Hb _ _ Hget) as (Hne & w & Hw & H1 & H2 & H3).
  split; [exact Hne|]. eauto.
Qed.

Lemma _update_module_vc_keeps_bound function_name version m r m' :
  _update_module_vc function_name version m = (r, m') ->
  proxies_bound m -> proxies_bound m'.
Proof.
  intros Hstep.
  pose proof (_update_module_vc_frame _ _ _ _ _ Hstep)
    as (_ & Hreg & _ & _ & Hother & _).
  apply proxies_bound_frame; [exact Hreg|].
  intros k w Hw H1 H2 H3.
  destruct (string_dec k function_name) as [->|Hne].
  2: { exists w. rewrite Hother by assumption. auto. }
  rewrite _update_module_vc_unfold in Hstep.
  destruct (dict_get (_method_dicts m) function_name) as [method_dict|];
    [|injection Hstep as <- <-; eauto].
  rewrite Hw in Hstep.
  destruct (refreshed method_dict function_name version w) as [w'|e] eqn:Hr;
    injection Hstep as <- <-; [|eauto].
  apply refreshed_metadata in Hr as (Hn & Hq & Hf & _).
  exists w'. simpl. rewrite dict_get_set_eq. repeat split; congruence.
Qed.

Lemma refresh_all_keeps_bound version names m r m' :
  refresh_all version names m = (r, m') ->
  proxies_bound m -> proxies_bound m'.
Proof.
  revert m. induction names as [|k names IH]; intros m.
  - now intros [= <- <-].
  - rewrite refresh_all_cons.
    destruct (_update_module_vc k version m) as [[[]|e] m1] eqn:Hstep.
    + intros Hrest Hb. eapply IH; eauto.
      eapply _update_module_vc_keeps_bound; eauto.
    + intros [= <- <-]. eapply _update_module_vc_keeps_bound; eauto.
Qed.

Lemma registered_bound m : registered m -> proxies_bound m.
Proof.
  induction 1 as [m0 dv display Hm0 | m func _ IH
                 | m description helps types defaults rr func _ IH
                 | m version _ IH].
  - rewrite register_unfold. intros function_name method_dict. simpl.
    discriminate.
  - unfold vc.
    destruct (rfind "_" (__name__ func)) as [idx|] eqn:Hidx.
    2: { now rewrite _module_vc_no_underscore. }
    destruct (_module_vc_exact func m idx Hidx) as (w' & Hr & ->).
    apply refreshed_metadata in Hr as (Hn & Hq & Hf & _).
    simpl. intros function_name method_dict. simpl.
    destruct (string_dec function_name (base_name (__name__ func) idx))
      as [->|Hne].
    + rewrite !dict_get_set_eq. intros [= <-].
      split; [apply dict_set_not_nil|]. exists w'. auto.
    + rewrite !dict_get_set_neq by assumption. apply IH.
  - unfold vt.
    destruct (_module_vt_frame description helps types defaults rr func m)
      as (_ & Hreg & Hattrs).
    apply (proxies_bound_frame m); auto.
    intros k w Hw. rewrite Hattrs. eauto.
  - unfold set_version. rewrite set_module_version_unfold.
    destruct (refresh_all version (dict_keys (_method_dicts m))
                (with_version m version)) as [r m'] eqn:Hrun.
    simpl. eapply refresh_all_keeps_bound; eauto.
Qed.

(** In a module built by [register], [vc], [vt] and [set_version], every
    base name of the registry has at least one version and a proxy
    installed under it, and that proxy is bound to the name and shows it
    as [__name__] and [__qualname__]. *)
Theorem registered_proxies_bound m : registered m -> proxies_bound m.
Proof. apply registered_bound. Qed.

Lemma registered_proxies_bound_witness : proxies_bound pm.
Proof. apply (registered_proxies_bound pm). apply registered_pm. Defined.

(** In a registered module, calling the attribute of a registered name is
    running the closure made for that name: the proxy found under the
    name dispatches in the version table of that very name. *)
Theorem call_proxy_runs_closure m function_name :
  registered m ->
  dict_get (_method_dicts m) function_name <> None ->
  forall call args version kwargs,
    call_proxy call function_name args version kwargs m
    = _run_method call function_name args version kwargs m.
Proof.
  intros Hreg Hname call args version kwargs.
  destruct (dict_get (_method_dicts m) function_name) as [method_dict|] eqn:Hmd;
    [|congruence].
  destruct (registered_bound m Hreg _ _ Hmd) as (_ & w & Hw & Hf & _).
  unfold call_proxy, bind, getattr. now rewrite Hw, Hf.
Qed.

Lemma call_proxy_runs_closure_witness :
  call_proxy names_call "some_method" [VInt 1] None [] pm
  = _run_method names_call "some_method" [VInt 1] None [] pm.
Proof.
  apply (call_proxy_runs_closure pm "some_method").
  - apply registered_pm.
  - vm_compute. discriminate.
Defined.

(** ** The metadata shown by the proxies *)

Lemma refresh_all_fresh version names m m' :
  refresh_all version names m = (Ok tt, m') ->
  forall k, In k names -> fresh k version m'.
Proof.
  revert m. induction names as [|k0 names IH]; intros m Hrun k Hk.
  - destruct Hk.
  - rewrite refresh_all_cons in Hrun.
    destruct (_update_module_vc k0 version m) as [[[]|e] m1] eqn:Hstep;
      [|discriminate].
    destruct (string_dec k k0) as [->|Hne].
    + eapply refresh_all_keeps_fresh; [|exact Hrun].
      eapply _update_module_vc_fresh; eauto.
    + destruct Hk as [Hk|Hk]; [congruence|]. eapply IH; eauto.
Qed.

Lemma refreshed_shows method_dict function_name version w w' :
  method_dict <> [] ->
  refreshed method_dict function_name version w = Ok w' ->
  shows method_dict function_name version w'.
Proof.
  intros Hne Hr.
  apply refreshed_metadata in Hr
    as (Hn & Hq & _ & [(e & f & Hres & Hf & Hdoc & Hwr)
                      | (first & Hres & Hfirst & Hdoc & _)]).
  - split; [exact Hn|]. split; [exact Hq|]. left.
    destruct (_get_last_version_sorted (dict_keys method_dict) version)
      as [[Hr' _] | (e' & Hr' & Hin & Hle & Hmax)]; [congruence|].
    assert (e' = e) by congruence. subst e'.
    exists e, f. auto 10.
  - split; [exact Hn|]. split; [exact Hq|]. right.
    destruct (_get_last_version_sorted (dict_keys method_dict) version)
      as [[_ Hall] | (e' & Hr' & _)]; [|congruence].
    destruct (_get_first_available_version_sorted (dict_keys method_dict))
      as (first' & Hfirst' & Hin & Hmin); [now apply dict_keys_not_nil|].
    assert (first' = first) by congruence. subst first'.
    exists first. auto.
Qed.

(** After [set_version v] on a registered module every proxy shows its
    base name, and its documentation is that of the implementation at the
    greatest version not after [v], which is also its [__wrapped__]; when
    there is no such version the documentation says so and names the
    least registered version. *)
Theorem set_version_refreshes_metadata m v function_name method_dict :
  registered m ->
  dict_get (_method_dicts m) function_name = Some method_dict ->
  exists w,
    dict_get (attrs (snd (set_version v m))) function_name = Some w /\
    shows method_dict function_name v w.
Proof.
  intros Hreg Hmd. unfold set_version.
  pose proof (registered_well_formed m Hreg) as Hwf.
  destruct (set_module_version_ok v m Hwf) as (m' & Hset & _ & _).
  rewrite Hset. simpl. rewrite set_module_version_unfold in Hset.
  pose proof (refresh_all_frame _ _ _ _ _ Hset) as (_ & Hsame & _).
  simpl in Hsame.
  destruct (refresh_all_fresh _ _ _ _ Hset function_name)
    as (md & w & Hmd' & Hw & Hr).
  { apply dict_get_In_keys. simpl. congruence. }
  rewrite Hsame, Hmd in Hmd'. injection Hmd' as <-.
  exists w. split; [exact Hw|].
  eapply refreshed_shows; eauto. exact (proj1 (Hwf _ _ Hmd)).
Qed.

Lemma set_version_refreshes_metadata_witness :
  exists w,
    dict_get (attrs (snd (set_version "20200615" pm))) "some_method" = Some w /\
    shows [("20200601", _some_method_20200601);
           ("20200721", _some_method_20200721)] "some_method" "20200615" w.
Proof.
  apply (set_version_refreshes_metadata pm "20200615" "some_method").
  - apply registered_pm.
  - vm_compute. reflexivity.
Defined.

(** Registration refreshes the proxy for the version in effect, not for
    the version just registered: after [vc] of a function whose base name
    is not a reserved attribute, the proxy of the base name shows the
    implementation that resolves at the active version, or says that none
    is available yet. *)
Theorem registration_refreshes_metadata func m idx :
  rfind "_" (__name__ func) = Some idx ->
  reserved (base_name (__name__ func) idx) = false ->
  exists method_dict w,
    dict_get (_method_dicts (snd (vc func m))) (base_name (__name__ func) idx)
    = Some method_dict /\
    dict_get (attrs (snd (vc func m))) (base_name (__name__ func) idx) = Some w /\
    shows method_dict (base_name (__name__ func) idx) (_version m) w.
Proof.
  intros Hidx _. unfold vc.
  destruct (_module_vc_exact func m idx Hidx) as (w' & Hr & ->). simpl.
  rewrite !dict_get_set_eq. eexists. exists w'.
  split; [reflexivity|]. split; [reflexivity|].
  eapply refreshed_shows; eauto. apply dict_set_not_nil.
Qed.

Lemma registration_refreshes_metadata_witness :
  exists method_dict w,
    dict_get (_method_dicts (snd (vc (def "_foo_20210101" "later" [] 5) pm)))
      "foo" = Some method_dict /\
    dict_get (attrs (snd (vc (def "_foo_20210101" "later" [] 5) pm))) "foo"
    = Some w /\
    shows method_dict "foo" (_version pm) w.
Proof.
  apply (registration_refreshes_metadata (def "_foo_20210101" "later" [] 5) pm 4);
    reflexivity.
Defined.

Lemma refreshed_display_independent method_dict function_name version
    w1 w1' w2 w2' :
  refreshed method_dict function_name version w1 = Ok w1' ->
  refreshed method_dict function_name version w2 = Ok w2' ->
  proxy_name w1' = proxy_name w2' /\
  proxy_qualname w1' = proxy_qualname w2' /\
  proxy_doc w1' = proxy_doc w2'.
Proof.
  unfold refreshed, rbind, dict_item.
  destruct (_get_last_version (sorted (dict_keys method_dict)) version)
    as [[e|]|]; try discriminate.
  - destruct (dict_get method_dict e) as [f|]; [|discriminate].
    intros [= <-] [= <-]. auto.
  - destruct (_get_first_available_version (sorted (dict_keys method_dict)))
      as [first|]; [|discriminate].
    intros [= <-] [= <-]. auto.
Qed.

Lemma set_version_fresh m v function_name :
  registered m ->
  dict_get (_method_dicts m) function_name <> None ->
  _method_dicts (snd (set_version v m)) = _method_dicts m /\
  registered (snd (set_version v m)) /\
  fresh function_name v (snd (set_version v m)).
Proof.
  intros Hreg Hname.
  split; [|split; [now apply registered_set_version|]].
  - unfold set_version. rewrite set_module_version_unfold.
    destruct (refresh_all v (dict_keys (_method_dicts m)) (with_version m v))
      as [r m'] eqn:Hrun.
    now apply refresh_all_frame in Hrun as (_ & Hsame & _).
  - unfold set_version.
    destruct (set_module_version_ok v m (registered_well_formed m Hreg))
      as (m' & Hset & _ & _).
    rewrite Hset. simpl. rewrite set_module_version_unfold in Hset.
    apply (refresh_all_fresh _ _ _ _ Hset).
    now apply dict_get_In_keys.
Qed.

(** What a proxy displays depends on the version in effect only, not on
    the versions that were in effect before: its name, qualified name and
    documentation after [set_version a] followed by [set_version b] are
    those after [set_version b] alone. *)
Theorem displayed_metadata_forgets_history m a b function_name :
  registered m ->
  dict_get (_method_dicts m) function_name <> None ->
  exists w1 w2,
    dict_get (attrs (snd (set_version b (snd (set_version a m))))) function_name
    = Some w1 /\
    dict_get (attrs (snd (set_version b m))) function_name = Some w2 /\
    proxy_name w1 = proxy_name w2 /\
    proxy_qualname w1 = proxy_qualname w2 /\
    proxy_doc w1 = proxy_doc w2.
Proof.
  intros Hreg Hname.
  destruct (set_version_fresh m a function_name Hreg Hname) as (Ha & Hrega & _).
  destruct (set_version_fresh (snd (set_version a m)) b function_name Hrega)
    as (Hab & _ & (md1 & w1 & Hmd1 & Hw1 & Hr1)); [congruence|].
  destruct (set_version_fresh m b function_name Hreg Hname)
    as (Hb & _ & (md2 & w2 & Hmd2 & Hw2 & Hr2)).
  rewrite Hab, Ha in Hmd1. rewrite Hb in Hmd2.
  assert (md1 = md2) by congruence. subst md2.
  exists w1, w2. split; [exact Hw1|]. split; [exact Hw2|].
  eapply refreshed_display_independent; eauto.
Qed.

Lemma displayed_metadata_forgets_history_witness :
  exists w1 w2,
    dict_get
      (attrs (snd (set_version "20200801" (snd (set_version "20200501" pm)))))
      "some_method" = Some w1 /\
    dict_get (attrs (snd (set_version "20200801" pm))) "some_method" = Some w2 /\
    proxy_name w1 = proxy_name w2 /\
    proxy_qualname w1 = proxy_qualname w2 /\
    proxy_doc w1 = proxy_doc w2.
Proof.
  apply (displayed_metadata_forgets_history pm "20200501" "20200801"
           "some_method").
  - apply registered_pm.
  - vm_compute. discriminate.
Defined.

(** [set_version] writes the active version and proxy metadata and nothing
    else, whether it ends normally or not: the version tables, the tool
    tables and the display version are untouched and no proxy goes away. *)
Theorem set_version_frame m v :
  let m' := snd (set_version v m) in
  _version m' = v /\
  _method_dicts m' = _method_dicts m /\
  _tool_dicts m' = _tool_dicts m /\
  _module_display_version m' = _module_display_version m /\
  (forall k, dict_get (attrs m) k <> None -> dict_get (attrs m') k <> None).
Proof.
  unfold set_version. rewrite set_module_version_unfold.
  destruct (refresh_all v (dict_keys (_method_dicts m)) (with_version m v))
    as [r m'] eqn:Hrun.
  apply refresh_all_frame in Hrun. simpl in *. exact Hrun.
Qed.

Lemma set_version_frame_witness :
  _version (snd (set_version "20200615" pm)) = "20200615" /\
  _method_dicts (snd (set_version "20200615" pm)) = _method_dicts pm /\
  _tool_dicts (snd (set_version "20200615" pm)) = _tool_dicts pm /\
  _module_display_version (snd (set_version "20200615" pm))
  = _module_display_version pm /\
  (forall k, dict_get (attrs pm) k <> None ->
             dict_get (attrs (snd (set_version "20200615" pm))) k <> None).
Proof. apply (set_version_frame pm "20200615"). Defined.

(** ** Tool registration *)

Lemma _module_vt_exact description helps types defaults return_routine func m idx :
  rfind "_" (__name__ func) = Some idx ->
  let function_name := base_name (__name__ func) idx in
  let version := version_suffix (__name__ func) idx in
  let tool_dict :=
    dict_set
      match dict_get (_tool_dicts m) function_name with
      | Some tool_dict => tool_dict
      | None => []
      end version
      {| tool_signature := signature func;
         tool_description := description;
         tool_helps := helps;
         tool_types := types;
         tool_defaults := defaults;
         tool_return_routine := return_routine |} in
  _module_vt description helps types defaults return_routine func m =
  (Ok func, with_tool_dicts m (dict_set (_tool_dicts m) function_name tool_dict)).
Proof.
  intros Hidx function_name version tool_dict.
  unfold _module_vt, bind, lift, rindex. rewrite Hidx.
  fold (base_name (__name__ func) idx). fold function_name.
  fold (version_suffix (__name__ func) idx). fold version.
  unfold read, write, ret, dict_mem, dict_item, tool_dict.
  destruct (dict_get (_tool_dicts m) function_name) as [td|] eqn:Hd;
    simpl; rewrite ?Hd, ?dict_get_set_eq, ?dict_set_set; reflexivity.
Qed.

(** [vt] needs no registered implementation: for a function whose name has
    an underscore it records the metadata, with the function's signature,
    under the base name and the raw suffix, returns the function, and
    leaves the version tables, the proxies and the active version alone.
    Without an underscore it raises and changes nothing. *)
Theorem vt_records_metadata description helps types defaults return_routine
    func m :
  (rfind "_" (__name__ func) = None ->
   vt description helps types defaults return_routine func m
   = (Raise (ValueError "substring not found"), m)) /\
  (forall idx,
      rfind "_" (__name__ func) = Some idx ->
      let m' := snd (vt description helps types defaults return_routine func m) in
      fst (vt description helps types defaults return_routine func m) = Ok func /\
      (exists tool_dict,
          dict_get (_tool_dicts m') (base_name (__name__ func) idx)
          = Some tool_dict /\
          dict_get tool_dict (version_suffix (__name__ func) idx)
          = Some {| tool_signature := signature func;
                    tool_description := description;
                    tool_helps := helps;
                    tool_types := types;
                    tool_defaults := defaults;
                    tool_return_routine := return_routine |}) /\
      _method_dicts m' = _method_dicts m /\
      attrs m' = attrs m /\
      _version m' = _version m).
Proof.
  split.
  - intros H. unfold vt, _module_vt, bind, lift, rindex. now rewrite H.
  - intros idx Hidx. unfold vt.
    rewrite (_module_vt_exact description helps types defaults return_routine
               func m idx Hidx).
    simpl. split; [reflexivity|]. split; [|auto].
    rewrite dict_get_set_eq. eexists. split; [reflexivity|].
    apply dict_get_set_eq.
Qed.

Lemma vt_records_metadata_witness :
  let m' := snd (vt None [] [] [] None (def "_tool_20200101" "" [] 5) blank) in
  fst (vt None [] [] [] None (def "_tool_20200101" "" [] 5) blank)
  = Ok (def "_tool_20200101" "" [] 5) /\
  (exists tool_dict,
      dict_get (_tool_dicts m') "tool" = Some tool_dict /\
      dict_get tool_dict "20200101"
      = Some {| tool_signature := [];
                tool_description := None;
                tool_helps := [];
                tool_types := [];
                tool_defaults := [];
                tool_return_routine := None |}) /\
  _method_dicts m' = _method_dicts blank /\
  attrs m' = attrs blank /\
  _version m' = _version blank.
Proof.
  apply (proj2 (vt_records_metadata None [] [] [] None
                  (def "_tool_20200101" "" [] 5) blank) 5).
  reflexivity.
Defined.

(** ** The flags of a subcommand *)

(** The type of a flag.  A type named in [types] wins and makes any
    annotation acceptable; without it a plain annotation is the type, a
    [list] alias gives its first argument as type with [nargs] set to
    [*], and no annotation gives no type.  Building the flag fails only
    for an alias that is not a [list] alias, or has no argument, when
    [types] does not name the parameter.  The help text is the entry of
    [helps], or an underscore. *)
Theorem flag_type_and_help helps types defaults param :
  (forall t,
      dict_get types (param_name param) = Some t ->
      exists kwargs,
        parameter_kwargs helps types defaults param = Ok kwargs /\
        kw_type kwargs = Some t /\ kw_nargs kwargs = None) /\
  (dict_get types (param_name param) = None ->
   match param_annotation param with
   | Empty =>
       exists kwargs,
         parameter_kwargs helps types defaults param = Ok kwargs /\
         kw_type kwargs = None /\ kw_nargs kwargs = None
   | Plain t =>
       exists kwargs,
         parameter_kwargs helps types defaults param = Ok kwargs /\
         kw_type kwargs = Some t /\ kw_nargs kwargs = None
   | GenericAlias origin args =>
       if value_eq_dec origin (VType "list") then
         match args with
         | t :: _ =>
             exists kwargs,
               parameter_kwargs helps types defaults param = Ok kwargs /\
               kw_type kwargs = Some t /\ kw_nargs kwargs = Some "*"
         | [] => parameter_kwargs helps types defaults param = Raise IndexError
         end
       else
         parameter_kwargs helps types defaults param
         = Raise (Exception_ "Only list is supported in GenericAlias")
   end) /\
  (forall kwargs,
      parameter_kwargs helps types defaults param = Ok kwargs ->
      kw_help kwargs =
      match dict_get helps (param_name param) with
      | Some h => h
      | None => "_"
      end).
Proof.
  unfold parameter_kwargs, rbind. split; [|split].
  - intros t ->.
    destruct (dict_get defaults (param_name param));
      [|destruct (param_default param)]; eexists; repeat split.
  - intros ->.
    destruct (param_annotation param) as [|origin args|t].
    + destruct (dict_get defaults (param_name param));
        [|destruct (param_default param)]; eexists; repeat split.
    + destruct (value_eq_dec origin (VType "list")).
      * destruct args as [|t args]; simpl.
        -- destruct (dict_get defaults (param_name param));
             [|destruct (param_default param)]; reflexivity.
        -- destruct (dict_get defaults (param_name param));
             [|destruct (param_default param)]; eexists; repeat split.
      * destruct (dict_get defaults (param_name param));
          [|destruct (param_default param)]; reflexivity.
    + destruct (dict_get defaults (param_name param));
        [|destruct (param_default param)]; eexists; repeat split.
  - intros kwargs.
    destruct (dict_get defaults (param_name param));
      [|destruct (param_default param)];
      (destruct (dict_get types (param_name param));
       [|destruct (param_annotation param) as [|origin args|t];
         [|destruct (value_eq_dec origin (VType "list"));
           [destruct (nth_error args 0)|]|]]);
      try discriminate; intros [= <-]; reflexivity.
Qed.

Lemma flag_type_and_help_witness :
  exists kwargs,
    parameter_kwargs [] [("n", VType "int")] []
      {| param_name := "n"; param_default := None;
         param_annotation := GenericAlias (VType "dict") [] |} = Ok kwargs /\
    kw_type kwargs = Some (VType "int") /\ kw_nargs kwargs = None.
Proof.
  apply (proj1 (flag_type_and_help [] [("n", VType "int")] []
                  {| param_name := "n"; param_default := None;
                     param_annotation := GenericAlias (VType "dict") [] |})
           (VType "int")).
  reflexivity.
Defined.

(** The flag of a parameter of the return routine needs a type in
    [types]: without one the build raises; with one the flag has that
    type, is required unless [defaults] names it, and never takes several
    values. *)
Theorem return_flag_needs_type helps types defaults name :
  (dict_get types name = None ->
   return_parameter_kwargs helps types defaults name = Raise (Exception_ "")) /\
  (forall t,
      dict_get types name = Some t ->
      exists kwargs,
        return_parameter_kwargs helps types defaults name = Ok kwargs /\
        kw_type kwargs = Some t /\ kw_nargs kwargs = None /\
        kw_default kwargs = dict_get defaults name /\
        (kw_required kwargs = true <-> dict_get defaults name = None)).
Proof.
  unfold return_parameter_kwargs, rbind. split.
  - intros ->. reflexivity.
  - intros t ->. destruct (dict_get defaults name); eexists;
      repeat split; simpl; intros; congruence.
Qed.

Lemma return_flag_needs_type_witness :
  return_parameter_kwargs [] [] [] "out" = Raise (Exception_ "").
Proof.
  apply (proj1 (return_flag_needs_type [] [] [] "out")). reflexivity.
Defined.

Lemma add_argument_arguments check parser flag kwargs parser' :
  add_argument check parser flag kwargs = Ok parser' ->
  sub_arguments parser' = (sub_arguments parser ++ [(flag, kwargs)])%list /\
  sub_help parser' = sub_help parser /\
  sub_description parser' = sub_description parser.
Proof.
  unfold add_argument. destruct (check parser flag kwargs); [discriminate|].
  intros [= <-]. auto.
Qed.

Lemma add_parameters_flags check helps types defaults params parser parser' :
  add_parameters check helps types defaults params parser = Ok parser' ->
  map fst (sub_arguments parser') =
  (map fst (sub_arguments parser)
   ++ map (fun p => ("-" ++ param_name p)%string) params)%list /\
  sub_help parser' = sub_help parser /\
  sub_description parser' = sub_description parser.
Proof.
  revert parser. induction params as [|param params IH]; intros parser; simpl.
  - intros [= <-]. now rewrite app_nil_r.
  - destruct (parameter_kwargs helps types defaults param) as [kwargs|];
      [simpl|discriminate].
    destruct (add_argument check parser _ kwargs) as [parser1|] eqn:Hadd;
      [simpl|discriminate].
    intros H. apply IH in H as (Hargs & Hh & Hd).
    apply add_argument_arguments in Hadd as (Hargs1 & Hh1 & Hd1).
    rewrite Hargs, Hargs1, map_app, <- app_assoc. simpl.
    repeat split; congruence.
Qed.

Lemma add_return_parameters_flags check helps types defaults names parser parser' :
  add_return_parameters check helps types defaults names parser = Ok parser' ->
  map fst (sub_arguments parser') =
  (map fst (sub_arguments parser) ++ map (fun n => ("-" ++ n)%string) names)%list /\
  sub_help parser' = sub_help parser /\
  sub_description parser' = sub_description parser.
Proof.
  revert parser. induction names as [|name names IH]; intros parser; simpl.
  - intros [= <-]. now rewrite app_nil_r.
  - destruct (return_parameter_kwargs helps types defaults name) as [kwargs|];
      [simpl|discriminate].
    destruct (add_argument check parser _ kwargs) as [parser1|] eqn:Hadd;
      [simpl|discriminate].
    intros H. apply IH in H as (Hargs & Hh & Hd).
    apply add_argument_arguments in Hadd as (Hargs1 & Hh1 & Hd1).
    rewrite Hargs, Hargs1, map_app, <- app_assoc. simpl.
    repeat split; congruence.
Qed.

(** A subcommand that builds has one flag per signature parameter, named
    after the parameter with a dash in front and in signature order,
    followed by one flag per parameter of the return routine; it carries
    the tool's name, the resolved version in its help and the tool's
    description. *)
Theorem subcommand_flags check func_name rversion t parser :
  add_tool check func_name rversion t = Ok parser ->
  sub_name parser = func_name /\
  sub_help parser = "version-" ++ rversion /\
  sub_description parser = tool_description t /\
  map fst (sub_arguments parser) =
  (map (fun p => ("-" ++ param_name p)%string) (tool_signature t)
   ++ match tool_return_routine t with
      | Some return_routine => map (fun n => ("-" ++ n)%string) (snd return_routine)
      | None => []
      end)%list.
Proof.
  intros Hbuild. split; [eapply add_tool_name; eauto|]. revert Hbuild.
  unfold add_tool.
  destruct (add_parameters check _ _ _ _ _) as [parser1|] eqn:Hparams;
    [simpl|discriminate].
  apply add_parameters_flags in Hparams as (Hargs & Hh & Hd). simpl in *.
  destruct (tool_return_routine t) as [return_routine|].
  - intros H. apply add_return_parameters_flags in H as (Hargs' & Hh' & Hd').
    rewrite Hargs', Hargs. repeat split; congruence.
  - intros [= <-]. rewrite Hargs, app_nil_r. auto.
Qed.

Lemma subcommand_flags_witness :
  exists parser,
    add_tool conflict_error "copy_file" "20200701"
      {| tool_signature := signature _copy_file_20200701;
         tool_description := Some "File copy method";
         tool_helps := [];
         tool_types := [];
         tool_defaults := [];
         tool_return_routine := None |} = Ok parser /\
    map fst (sub_arguments parser) = ["-srcfile"; "-dstfile"].
Proof.
  eexists. split.
  - vm_compute. reflexivity.
  - eapply (subcommand_flags conflict_error "copy_file" "20200701"
              {| tool_signature := signature _copy_file_20200701;
                 tool_description := Some "File copy method";
                 tool_helps := [];
                 tool_types := [];
                 tool_defaults := [];
                 tool_return_routine := None |}).
    vm_compute. reflexivity.
Defined.

Lemma add_tools_built_from check version items :
  forall subparsers routines subparsers' routines',
    add_tools check version items subparsers routines
    = Ok (subparsers', routines') ->
    exists added,
      subparsers' = (subparsers ++ added)%list /\
      Forall2 (built_from check version)
        (filter (fun item => applicable (snd item) version) items) added.
Proof.
  induction items as [|[func_name tool_dict] items IH];
    intros subparsers routines subparsers' routines'; simpl.
  - intros [= <- <-]. exists []. split; [now rewrite app_nil_r | constructor].
  - destruct (_get_last_version_sorted (dict_keys tool_dict) version)
      as [[Hr Hall] | (rv & Hr & Hin & Hle & Hmax)].
    + destruct (resolver_applicable tool_dict version)
        as [[_ Happ] | (rv' & t' & Hr' & _)]; [|congruence].
      rewrite Hr, Happ. simpl. apply IH.
    + destruct (resolver_applicable tool_dict version)
        as [[Hr' _] | (rv' & t & Hr' & Happ & Ht)]; [congruence|].
      assert (rv' = rv) by congruence. subst rv'.
      rewrite Hr, Happ. simpl. unfold dict_item. rewrite Ht. simpl.
      destruct (add_tool check func_name rv t) as [parser|] eqn:Htool;
        [simpl|discriminate].
      intros H. apply IH in H as (added & -> & Hall).
      exists (parser :: added). split; [now rewrite <- app_assoc|].
      constructor; [|exact Hall].
      exists rv, t. simpl. auto.
Qed.

(** The subcommands of the grammar are built, one for one and in order,
    from the tools that have metadata not after the active version, each
    from its metadata at the greatest such version: newer metadata of the
    same tool is not used. *)
Theorem subcommands_use_latest_metadata check m parser routines :
  module_main_parser check m = Ok (parser, routines) ->
  Forall2 (built_from check (_version m))
    (filter (fun item => applicable (snd item) (_version m)) (_tool_dicts m))
    (parser_subparsers parser).
Proof.
  unfold module_main_parser.
  destruct (add_tools check (_version m) (_tool_dicts m) [] [])
    as [[subparsers routines0]|] eqn:Hbuild; [simpl|discriminate].
  intros [= <- <-]. simpl.
  apply add_tools_built_from in Hbuild as (added & -> & Hall). exact Hall.
Qed.

Lemma subcommands_use_latest_metadata_witness :
  Forall2 (built_from conflict_error (_version pm))
    (filter (fun item => applicable (snd item) (_version pm)) (_tool_dicts pm))
    (parser_subparsers (fst (built (module_main_parser conflict_error pm)))).
Proof.
  apply (subcommands_use_latest_metadata conflict_error pm
           (fst (built (module_main_parser conflict_error pm)))
           (snd (built (module_main_parser conflict_error pm)))).
  vm_compute. reflexivity.
Defined.

Lemma dict_set_In {V : Type} (d : dict V) (k : string) (v : V) :
  In (k, v) (dict_set d k v).
Proof.
  induction d as [|[k' v'] d IH]; simpl.
  - now left.
  - destruct (String.eqb k k'); [now left | now right].
Qed.

Lemma applicable_iff (tool_dict : dict tool) (version : string) :
  applicable tool_dict version = true <->
  exists k, In k (dict_keys tool_dict) /\ str_le k version.
Proof. unfold applicable. apply existsb_exists. Qed.

(** The command line grows with the active version: on the same tool
    table, every subcommand present at a version is present at every
    later version. *)
Theorem cli_surface_grows check m m' parser routines parser' routines' :
  _tool_dicts m = _tool_dicts m' ->
  str_le (_version m) (_version m') ->
  module_main_parser check m = Ok (parser, routines) ->
  module_main_parser check m' = Ok (parser', routines') ->
  forall name,
    In name (map sub_name (parser_subparsers parser)) ->
    In name (map sub_name (parser_subparsers parser')).
Proof.
  intros Htools Hle Hm Hm' name.
  unfold module_main_parser in Hm, Hm'.
  destruct (add_tools check (_version m) (_tool_dicts m) [] [])
    as [[subs rr]|] eqn:Hb; [simpl in Hm|discriminate].
  destruct (add_tools check (_version m') (_tool_dicts m') [] [])
    as [[subs' rr']|] eqn:Hb'; [simpl in Hm'|discriminate].
  injection Hm as <- _. injection Hm' as <- _. simpl.
  rewrite (proj1 (add_tools_spec check _ _ [] []) _ _ Hb).
  rewrite (proj1 (add_tools_spec check _ _ [] []) _ _ Hb').
  simpl. rewrite <- Htools, !in_map_iff.
  intros ([n td] & <- & Hin). exists (n, td). split; [reflexivity|].
  apply filter_In in Hin as [Hin Happ]. apply filter_In. split; [exact Hin|].
  simpl in *. apply applicable_iff in Happ as (k & Hk & Hkv).
  apply applicable_iff. exists k. split; [exact Hk|].
  eapply str_le_trans; eauto.
Qed.

Lemma cli_surface_grows_witness :
  In "copy_file"
    (map sub_name
       (parser_subparsers
          (fst (built (module_main_parser conflict_error pm))))).
Proof.
  apply (cli_surface_grows conflict_error (exec (set_version "20200801") pm) pm
           (fst (built (module_main_parser conflict_error
                          (exec (set_version "20200801") pm))))
           (snd (built (module_main_parser conflict_error
                          (exec (set_version "20200801") pm))))
           (fst (built (module_main_parser conflict_error pm)))
           (snd (built (module_main_parser conflict_error pm))));
    try (vm_compute; reflexivity).
  vm_compute. left. reflexivity.
Defined.

(** A tool decorated with [vt] is on the command line as soon as the
    active version is not before the tool's version. *)
Theorem registered_tool_is_exposed check description helps types defaults
    return_routine func m idx parser routines :
  rfind "_" (__name__ func) = Some idx ->
  str_le (version_suffix (__name__ func) idx) (_version m) ->
  module_main_parser check
    (snd (vt description helps types defaults return_routine func m))
  = Ok (parser, routines) ->
  In (base_name (__name__ func) idx) (map sub_name (parser_subparsers parser)).
Proof.
  intros Hidx Hle. unfold vt.
  rewrite (_module_vt_exact description helps types defaults return_routine
             func m idx Hidx).
  cbn [snd]. unfold module_main_parser.
  destruct (add_tools check _ _ [] []) as [[subs rr]|] eqn:Hb;
    [simpl|discriminate].
  intros [= <- <-]. simpl.
  rewrite (proj1 (add_tools_spec check _ _ [] []) _ _ Hb). simpl.
  set (tool_dict := dict_set _ (version_suffix (__name__ func) idx) _).
  apply in_map_iff. exists (base_name (__name__ func) idx, tool_dict).
  split; [reflexivity|]. apply filter_In. split.
  - apply dict_set_In.
  - simpl. apply applicable_iff.
    exists (version_suffix (__name__ func) idx). split; [|exact Hle].
    apply dict_keys_set_In. now left.
Qed.

Lemma registered_tool_is_exposed_witness :
  In "tool"
    (map sub_name
       (parser_subparsers
          (fst (built (module_main_parser conflict_error
                         (snd (vt None [] [] [] None
                                 (def "_tool_20200101" "" [] 5) pm))))))).
Proof.
  apply (registered_tool_is_exposed conflict_error None [] [] [] None
           (def "_tool_20200101" "" [] 5) pm 5
           (fst (built (module_main_parser conflict_error
                          (snd (vt None [] [] [] None
                                  (def "_tool_20200101" "" [] 5) pm)))))
           (snd (built (module_main_parser conflict_error
                          (snd (vt None [] [] [] None
                                  (def "_tool_20200101" "" [] 5) pm))))));
    vm_compute; reflexivity.
Defined.

(** ** The leading options *)

Lemma options_loop_step argv i display_help m :
  options_loop argv i display_help m =
  if lt_dec i (List.length argv) then
    match nth_error argv i with
    | None => (Raise IndexError, m)
    | Some a =>
        if String.eqb a "-v" then
          match nth_error argv (i + 1) with
          | None => (Raise IndexError, m)
          | Some v =>
              match set_version v m with
              | (Ok _, m') => options_loop argv (i + 2) display_help m'
              | (Raise e, m') => (Raise e, m')
              end
          end
        else if String.eqb a "-h" then options_loop argv (i + 1) true m
        else (Ok (i, display_help), m)
    end
  else (Ok (i, display_help), m).
Proof.
  funelim (options_loop argv i display_help m);
    repeat match goal with
           | H : lt_dec _ _ = _ |- _ => rewrite H; clear H
           | H : nth_error _ _ = _ |- _ => rewrite H; clear H
           | H : String.eqb _ _ = _ |- _ => rewrite H; clear H
           | H : set_version _ _ = _ |- _ => rewrite H; clear H
           end; reflexivity.
Qed.

Lemma nth_error_middle {A} (pre : list A) (x : A) (post : list A) :
  nth_error (pre ++ x :: post) (List.length pre) = Some x.
Proof. induction pre; simpl; auto. Qed.

Lemma options_loop_prefix opts :
  forall pre rest display_help m,
    registered m ->
    exists m',
      options_loop (pre ++ flat_map option_tokens opts ++ rest)
        (List.length pre) display_help m
      = options_loop (pre ++ flat_map option_tokens opts ++ rest)
          (List.length pre + List.length (flat_map option_tokens opts))
          (display_help || existsb is_OptH opts)%bool m' /\
      registered m' /\
      _version m' = last_version opts (_version m) /\
      _method_dicts m' = _method_dicts m /\
      _tool_dicts m' = _tool_dicts m.
Proof.
  induction opts as [|o opts IH]; intros pre rest display_help m Hreg.
  - exists m. simpl. rewrite Nat.add_0_r, orb_false_r. auto.
  - destruct o as [v|]; simpl.
    + rewrite options_loop_step.
      destruct (lt_dec _ _) as [_|Hn];
        [|exfalso; apply Hn; rewrite length_app; simpl; lia].
      rewrite nth_error_middle. simpl.
      replace (pre ++ "-v" :: v :: flat_map option_tokens opts ++ rest)%list
        with ((pre ++ ["-v"]) ++ v :: flat_map option_tokens opts ++ rest)%list
        by (now rewrite <- app_assoc).
      replace (List.length pre + 1) with (List.length (pre ++ ["-v"]))
        by (rewrite length_app; reflexivity).
      rewrite nth_error_middle.
      destruct (set_module_version_ok v m (registered_well_formed m Hreg))
        as (m1 & Hset & _ & Hv1).
      pose proof (registered_set_version v Hreg) as Hreg1.
      unfold set_version in *. rewrite Hset in *. simpl in Hreg1.
      rewrite set_module_version_unfold in Hset.
      apply refresh_all_frame in Hset as (_ & Hmd1 & Ht1 & _). simpl in *.
      destruct (IH ((pre ++ ["-v"]) ++ [v])%list rest display_help m1 Hreg1)
        as (m' & Hrun & Hreg' & Hv' & Hmd' & Ht').
      exists m'.
      replace (List.length pre + 2)
        with (List.length ((pre ++ ["-v"]) ++ [v]))
        by (rewrite !length_app; simpl; lia).
      replace ((pre ++ ["-v"]) ++ v :: flat_map option_tokens opts ++ rest)%list
        with (((pre ++ ["-v"]) ++ [v]) ++ flat_map option_tokens opts ++ rest)%list
        by (now rewrite <- !app_assoc).
      rewrite Hrun. split.
      * f_equal. rewrite !length_app. simpl. lia.
      * repeat split; auto; congruence.
    + rewrite options_loop_step.
      destruct (lt_dec _ _) as [_|Hn];
        [|exfalso; apply Hn; rewrite length_app; simpl; lia].
      rewrite nth_error_middle. simpl.
      destruct (IH (pre ++ ["-h"])%list rest true m Hreg)
        as (m' & Hrun & Hrest).
      exists m'.
      replace (List.length pre + 1) with (List.length (pre ++ ["-h"]))
        by (rewrite length_app; reflexivity).
      replace (pre ++ "-h" :: flat_map option_tokens opts ++ rest)%list
        with ((pre ++ ["-h"]) ++ flat_map option_tokens opts ++ rest)%list
        by (now rewrite <- app_assoc).
      rewrite Hrun. split; [|exact Hrest].
      rewrite orb_true_r. f_equal. rewrite length_app. simpl. lia.
Qed.

(** The leading options of the command line are all applied before the
    grammar is built: on a registered module the loop consumes every [-v
    version] and [-h] up to the first other word, the active version
    becomes the one named by the last [-v], and help is asked for when an
    [-h] was seen or nothing follows the options. *)
Theorem leading_options_are_applied prog opts rest m :
  registered m -> ends_options rest ->
  exists m',
    module_main_options (prog :: flat_map option_tokens opts ++ rest) m
    = (Ok (1 + List.length (flat_map option_tokens opts),
           match rest with
           | [] => true
           | _ :: _ => existsb is_OptH opts
           end), m') /\
    _version m' = last_version opts (_version m) /\
    _method_dicts m' = _method_dicts m /\
    _tool_dicts m' = _tool_dicts m.
Proof.
  intros Hreg Hend.
  destruct (options_loop_prefix opts [prog] rest false m Hreg)
    as (m' & Hrun & _ & Hv & Hmd & Ht).
  exists m'. split; [|auto].
  unfold module_main_options, bind, ret.
  change (prog :: flat_map option_tokens opts ++ rest)%list
    with ([prog] ++ flat_map option_tokens opts ++ rest)%list.
  change 1 with (List.length [prog]) at 1.
  rewrite Hrun, options_loop_step. simpl orb. cbn [List.length].
  destruct rest as [|a rest].
  - rewrite app_nil_r.
    destruct (lt_dec _ _) as [Hlt|_];
      [exfalso; rewrite length_app in Hlt; simpl in Hlt; lia|].
    cbn [fst snd].
    replace (1 + List.length (flat_map option_tokens opts)
             =? List.length ([prog] ++ flat_map option_tokens opts))%nat
      with true by (symmetry; apply Nat.eqb_eq; now rewrite length_app).
    reflexivity.
  - destruct Hend as [Hva Hha].
    destruct (lt_dec _ _) as [_|Hn];
      [|exfalso; apply Hn; rewrite !length_app; simpl; lia].
    replace ([prog] ++ flat_map option_tokens opts ++ a :: rest)%list
      with (([prog] ++ flat_map option_tokens opts) ++ a :: rest)%list
      by (now rewrite <- app_assoc).
    replace (1 + List.length (flat_map option_tokens opts))
      with (List.length ([prog] ++ flat_map option_tokens opts))
      by (now rewrite length_app).
    rewrite nth_error_middle.
    apply String.eqb_neq in Hva, Hha. rewrite Hva, Hha. cbn [fst snd].
    replace (List.length ([prog] ++ flat_map option_tokens opts)
             =? List.length
                  (([prog] ++ flat_map option_tokens opts) ++ a :: rest))%nat
      with false
      by (symmetry; apply Nat.eqb_neq; rewrite (length_app (_ ++ _));
          simpl; lia).
    reflexivity.
Qed.

Lemma leading_options_are_applied_witness :
  exists m',
    module_main_options
      ("pm.py" :: flat_map option_tokens [OptV "20200601"; OptH; OptV "20200615"]
         ++ ["copy_file"; "-srcfile"; "a"]) pm
    = (Ok (1 + List.length
                 (flat_map option_tokens
                    [OptV "20200601"; OptH; OptV "20200615"]),
           existsb is_OptH [OptV "20200601"; OptH; OptV "20200615"]), m') /\
    _version m'
    = last_version [OptV "20200601"; OptH; OptV "20200615"] (_version pm) /\
    _method_dicts m' = _method_dicts pm /\
    _tool_dicts m' = _tool_dicts pm.
Proof.
  apply (leading_options_are_applied "pm.py"
           [OptV "20200601"; OptH; OptV "20200615"]
           ["copy_file"; "-srcfile"; "a"] pm).
  - apply registered_pm.
  - split; discriminate.
Defined.

(** A [-v] that is the last word of the command line has no version to
    read: after the options before it have been applied, the loop raises
    [IndexError]. *)
Theorem trailing_v_raises prog opts m :
  registered m ->
  exists m',
    module_main_options (prog :: flat_map option_tokens opts ++ ["-v"]) m
    = (Raise IndexError, m') /\
    _version m' = last_version opts (_version m).
Proof.
  intros Hreg.
  destruct (options_loop_prefix opts [prog] ["-v"] false m Hreg)
    as (m' & Hrun & _ & Hv & _).
  exists m'. split; [|exact Hv].
  unfold module_main_options, bind.
  change (prog :: flat_map option_tokens opts ++ ["-v"])%list
    with ([prog] ++ flat_map option_tokens opts ++ ["-v"])%list.
  change 1 with (List.length [prog]) at 1.
  rewrite Hrun, options_loop_step.
  destruct (lt_dec _ _) as [_|Hn];
    [|exfalso; apply Hn; rewrite !length_app; simpl; lia].
  replace ([prog] ++ flat_map option_tokens opts ++ ["-v"])%list
    with (([prog] ++ flat_map option_tokens opts) ++ ["-v"])%list
    by (now rewrite <- app_assoc).
  replace (List.length [prog] + List.length (flat_map option_tokens opts))
    with (List.length ([prog] ++ flat_map option_tokens opts))
    by (now rewrite length_app).
  rewrite nth_error_middle. simpl String.eqb. cbv iota.
  assert (Hnone : nth_error (([prog] ++ flat_map option_tokens opts) ++ ["-v"])
                    (List.length ([prog] ++ flat_map option_tokens opts) + 1)
                  = None).
  { apply nth_error_None. rewrite (length_app (_ ++ _)). simpl. lia. }
  now rewrite Hnone.
Qed.

Lemma trailing_v_raises_witness :
  exists m',
    module_main_options
      ("pm.py" :: flat_map option_tokens [OptV "20200601"] ++ ["-v"]) pm
    = (Raise IndexError, m') /\
    _version m' = last_version [OptV "20200601"] (_version pm).
Proof.
  apply (trailing_v_raises "pm.py" [OptV "20200601"] pm).
  apply registered_pm.
Defined.

(** ** The tool manual *)

Lemma manual_parameters_lines str_ helps types defaults params lines lines' :
  manual_parameters str_ helps types defaults params lines = Ok lines' ->
  exists added,
    lines' = (lines ++ added)%list /\ List.length added = List.length params.
Proof.
  revert lines. induction params as [|param params IH]; intros lines; simpl.
  - intros [= <-]. exists []. now rewrite app_nil_r.
  - destruct (manual_parameter_line str_ helps types defaults param) as [line|];
      [simpl|discriminate].
    intros H. apply IH in H as (added & -> & Hlen).
    exists (line :: added). rewrite <- app_assoc. simpl. auto.
Qed.

Lemma manual_tools_sections str_ version items :
  forall lines lines',
    manual_tools str_ version items lines = Ok lines' ->
    exists sections,
      lines' = (lines ++ List.concat sections)%list /\
      Forall2 (section_of version)
        (filter (fun item => applicable (snd item) version) items) sections.
Proof.
  induction items as [|[func_name tool_dict] items IH]; intros lines lines';
    simpl.
  - intros [= <-]. exists []. split; [now rewrite app_nil_r | constructor].
  - destruct (_get_last_version_sorted (dict_keys tool_dict) version)
      as [[Hr Hall] | (rv & Hr & Hin & Hle & Hmax)].
    + destruct (resolver_applicable tool_dict version)
        as [[_ Happ] | (rv' & t' & Hr' & _)]; [|congruence].
      rewrite Hr, Happ. simpl. apply IH.
    + destruct (resolver_applicable tool_dict version)
        as [[Hr' _] | (rv' & t & Hr' & Happ & Ht)]; [congruence|].
      assert (rv' = rv) by congruence. subst rv'.
      rewrite Hr, Happ. simpl. unfold dict_item. rewrite Ht. simpl.
      destruct (manual_parameters str_ _ _ _ _ _) as [lines1|] eqn:Hparams;
        [simpl|discriminate].
      apply manual_parameters_lines in Hparams as (added & -> & Hlen).
      intros H. apply IH in H as (sections & -> & Hall).
      exists ((manual_heading func_name rv t ++ added)%list :: sections).
      split; [simpl; now rewrite <- !app_assoc|].
      constructor; [|exact Hall].
      exists rv, t, added. simpl. auto 10.
Qed.

(** The manual is the title line followed by one section for each tool
    that has metadata not after the version, in table order; a section
    shows the greatest such version and has one line for each signature
    parameter (the parameters of a return routine are not listed). *)
Theorem manual_has_a_section_per_applicable_tool str_ m version lines :
  generate_tool_manual_lines str_ m version = Ok lines ->
  exists sections,
    lines = "## All tools" :: List.concat sections /\
    Forall2
      (section_of match version with Some v => v | None => _version m end)
      (filter
         (fun item =>
            applicable (snd item)
              match version with Some v => v | None => _version m end)
         (_tool_dicts m))
      sections.
Proof.
  unfold generate_tool_manual_lines. intros H.
  apply manual_tools_sections in H as (sections & -> & Hall).
  exists sections. auto.
Qed.

Lemma manual_has_a_section_per_applicable_tool_witness :
  exists sections,
    ["## All tools"; "### copy_file"; "*version: 20200701*"; "File copy method";
     "#### Parameters"; "- **-srcfile**: Input source file";
     "- **-dstfile**: Output source file"]
    = "## All tools" :: List.concat sections /\
    Forall2 (section_of (_version pm))
      (filter (fun item => applicable (snd item) (_version pm)) (_tool_dicts pm))
      sections.
Proof.
  apply (manual_has_a_section_per_applicable_tool (fun _ => "") pm None).
  vm_compute. reflexivity.
Defined.

Lemma add_parameters_manual_parameters check str_ helps types defaults params :
  forall parser parser' lines,
    add_parameters check helps types defaults params parser = Ok parser' ->
    exists lines',
      manual_parameters str_ helps types defaults params lines = Ok lines'.
Proof.
  induction params as [|param params IH]; intros parser parser' lines; simpl.
  - eauto.
  - unfold manual_parameter_line.
    destruct (parameter_kwargs helps types defaults param) as [kwargs|];
      [simpl|discriminate].
    destruct (add_argument check parser _ kwargs) as [parser1|];
      [simpl|discriminate].
    apply IH.
Qed.

Lemma add_tools_manual_tools check str_ version items :
  forall subparsers routines built lines,
    add_tools check version items subparsers routines = Ok built ->
    exists lines', manual_tools str_ version items lines = Ok lines'.
Proof.
  induction items as [|[func_name tool_dict] items IH];
    intros subparsers routines built0 lines; simpl.
  - eauto.
  - destruct (_get_last_version (sorted (dict_keys tool_dict)) version)
      as [[rv|]|]; simpl; try discriminate.
    + destruct (dict_item tool_dict rv) as [t|]; [simpl|discriminate].
      destruct (add_tool check func_name rv t) as [parser|] eqn:Htool;
        [simpl|discriminate].
      unfold add_tool in Htool.
      destruct (add_parameters check _ _ _ _ _) as [parser1|] eqn:Hparams;
        [|discriminate].
      destruct (add_parameters_manual_parameters check str_ _ _ _ _ _ _
                  (lines ++ manual_heading func_name rv t)%list Hparams)
        as (lines1 & ->).
      simpl. apply IH.
    + apply IH.
Qed.

(** The manual asks for less than the command line: whenever the grammar
    of [module_main] can be built for a module, whatever [argparse]
    accepts, the manual for its active version can be built too. *)
Theorem manual_builds_when_grammar_builds check str_ m parser routines :
  module_main_parser check m = Ok (parser, routines) ->
  exists lines, generate_tool_manual_lines str_ m None = Ok lines.
Proof.
  unfold module_main_parser, generate_tool_manual_lines.
  destruct (add_tools check (_version m) (_tool_dicts m) [] [])
    as [built0|] eqn:Hbuild; [|discriminate].
  intros _. eapply add_tools_manual_tools; eauto.
Qed.

Lemma manual_builds_when_grammar_builds_witness :
  exists lines, generate_tool_manual_lines (fun _ => "") pm None = Ok lines.
Proof.
  apply (manual_builds_when_grammar_builds conflict_error (fun _ => "") pm
           (fst (built (module_main_parser conflict_error pm)))
           (snd (built (module_main_parser conflict_error pm)))).
  vm_compute. reflexivity.
Defined.
